(** * LiveChat: the real-time audio session of [src/components/LiveChat.tsx]

    A shallow embedding of the audio helpers ([encode], [decode],
    [decodeAudioData], [createBlob]) and of the event handlers of the
    [LiveChat] component ([cleanup], [handleStop], [handleStart] and the
    [onopen] / [onmessage] / [onerror] / [onclose] callbacks), followed by
    the properties of the playback clock, the transcript accumulators, the
    session lifecycle and the PCM wire format.

    Conventions of the model.
    - A JavaScript string is the list of its UTF-16 code units.
    - A JavaScript number that carries a sample or a time is an exact
      rational: every finite Float32 sample, every product of such a
      sample with 32768 and every quotient of a 16-bit integer by 32768
      is represented exactly by a double, so the sample arithmetic of the
      source is exact; for times (seconds on the output context's clock)
      the rounding of double additions is left out.  NaN and the
      infinities are outside the model.
    - Typed arrays are lists of integers kept in the element range by the
      store conversions written out below; the byte order of the views
      [Uint8Array(int16.buffer)] and [Int16Array(data.buffer)] is the
      platform's, taken little-endian.
    - A handler runs to completion on the event loop; the device time it
      reads and the outcome of the requests it awaits are arguments of
      the handler, and what it does to the devices and to the connection
      is returned as a list of effects next to the new state. *)

From Stdlib Require Import ZArith QArith Qminmax Qabs Qround.
From Stdlib Require Import List String Ascii Bool Lia.
Import ListNotations.

Open Scope Z_scope.

(** ** JavaScript strings *)

Definition jsstring := list Z.

(** A string literal of the source, as code units. *)
Definition str (s : string) : jsstring :=
  map (fun a => Z.of_N (N_of_ascii a)) (list_ascii_of_string s).

(** [String.fromCharCode(n)]: one code unit, [n] taken modulo 2^16. *)
Definition fromCharCode (n : Z) : Z := n mod 65536.

(** White space and line terminators of ECMAScript, the code units that
    [String.prototype.trim] strips. *)
Definition isWhiteSpace (c : Z) : bool :=
  ((9 <=? c) && (c <=? 13)) || (c =? 32) || (c =? 160) || (c =? 5760)
  || ((8192 <=? c) && (c <=? 8202)) || (c =? 8232) || (c =? 8233)
  || (c =? 8239) || (c =? 8287) || (c =? 12288) || (c =? 65279).

Fixpoint trimStart (s : jsstring) : jsstring :=
  match s with
  | c :: s' => if isWhiteSpace c then trimStart s' else s
  | [] => []
  end.

(** [s.trim()] *)
Definition trim (s : jsstring) : jsstring :=
  rev (trimStart (rev (trimStart s))).

(** Truthiness of a string: it is not empty. *)
Definition truthy (s : jsstring) : bool :=
  match s with [] => false | _ :: _ => true end.

(** ** The builtins [btoa] and [atob] (RFC 4648 base64) *)

Module Base64.

Definition pad : Z := 61.

(** The character of a 6-bit value. *)
Definition char_of (x : Z) : Z :=
  if x <? 26 then 65 + x
  else if x <? 52 then 71 + x
  else if x <? 62 then x - 4
  else if x =? 62 then 43 else 47.

(** The 6-bit value of a character of the alphabet. *)
Definition value_of (c : Z) : option Z :=
  if (65 <=? c) && (c <=? 90) then Some (c - 65)
  else if (97 <=? c) && (c <=? 122) then Some (c - 71)
  else if (48 <=? c) && (c <=? 57) then Some (c + 4)
  else if c =? 43 then Some 62
  else if c =? 47 then Some 63
  else None.

Fixpoint encode_bytes (l : list Z) : jsstring :=
  match l with
  | [] => []
  | [a] =>
      [char_of (Z.shiftr a 2); char_of (Z.shiftl (Z.land a 3) 4); pad; pad]
  | [a; b] =>
      [char_of (Z.shiftr a 2);
       char_of (Z.lor (Z.shiftl (Z.land a 3) 4) (Z.shiftr b 4));
       char_of (Z.shiftl (Z.land b 15) 2); pad]
  | a :: b :: c :: rest =>
      char_of (Z.shiftr a 2)
      :: char_of (Z.lor (Z.shiftl (Z.land a 3) 4) (Z.shiftr b 4))
      :: char_of (Z.lor (Z.shiftl (Z.land b 15) 2) (Z.shiftr c 6))
      :: char_of (Z.land c 63)
      :: encode_bytes rest
  end.

(** [btoa(s)]: throws (here [None]) when a code unit of [s] is above
    255. *)
Definition btoa (s : jsstring) : option jsstring :=
  if forallb (fun c => (0 <=? c) && (c <=? 255)) s
  then Some (encode_bytes s) else None.

Definition isAsciiWhitespace (c : Z) : bool :=
  (c =? 9) || (c =? 10) || (c =? 12) || (c =? 13) || (c =? 32).

(** One or two trailing pad characters are dropped. *)
Fixpoint strip_padding (s : jsstring) : jsstring :=
  match s with
  | [] => []
  | [p] => if p =? pad then [] else [p]
  | [q; p] =>
      if p =? pad then (if q =? pad then [] else [q]) else [q; p]
  | c :: s' => c :: strip_padding s'
  end.

Fixpoint values_of (s : jsstring) : option (list Z) :=
  match s with
  | [] => Some []
  | c :: s' =>
      match value_of c, values_of s' with
      | Some v, Some vs => Some (v :: vs)
      | _, _ => None
      end
  end.

(** Groups of four 6-bit values give three bytes; a final group of
    three gives two bytes and a final group of two gives one, the
    spare low bits being dropped. *)
Fixpoint decode_values (l : list Z) : list Z :=
  match l with
  | a :: b :: c :: d :: rest =>
      Z.lor (Z.shiftl a 2) (Z.shiftr b 4)
      :: Z.lor (Z.shiftl (Z.land b 15) 4) (Z.shiftr c 2)
      :: Z.lor (Z.shiftl (Z.land c 3) 6) d
      :: decode_values rest
  | [a; b; c] =>
      [Z.lor (Z.shiftl a 2) (Z.shiftr b 4);
       Z.lor (Z.shiftl (Z.land b 15) 4) (Z.shiftr c 2)]
  | [a; b] => [Z.lor (Z.shiftl a 2) (Z.shiftr b 4)]
  | _ => []
  end.

(** [atob(s)], the forgiving base64 decoding of the HTML standard:
    ASCII white space is removed, padding is dropped from a string
    whose length is a multiple of four, and the call throws (here
    [None]) when one character is left over or a character is not in
    the alphabet. *)
Definition atob (s : jsstring) : option jsstring :=
  let s1 := filter (fun c => negb (isAsciiWhitespace c)) s in
  let s2 :=
    if (Z.of_nat (List.length s1) mod 4 =? 0) then strip_padding s1 else s1 in
  if (Z.of_nat (List.length s2) mod 4 =? 1) then None
  else option_map decode_values (values_of s2).

Definition byte (b : Z) : Prop := 0 <= b < 256.
Definition sextet (v : Z) : Prop := 0 <= v < 64.

(** The 6-bit values [encode_bytes] writes, without the padding (used
    to state what [atob] reads back). *)
Fixpoint sextets (l : list Z) : list Z :=
  match l with
  | [] => []
  | [a] => [Z.shiftr a 2; Z.shiftl (Z.land a 3) 4]
  | [a; b] =>
      [Z.shiftr a 2;
       Z.lor (Z.shiftl (Z.land a 3) 4) (Z.shiftr b 4);
       Z.shiftl (Z.land b 15) 2]
  | a :: b :: c :: rest =>
      Z.shiftr a 2
      :: Z.lor (Z.shiftl (Z.land a 3) 4) (Z.shiftr b 4)
      :: Z.lor (Z.shiftl (Z.land b 15) 2) (Z.shiftr c 6)
      :: Z.land c 63
      :: sextets rest
  end.

End Base64.

(** ** Audio helper functions *)

(** [encode(bytes)]: the bytes of a [Uint8Array] become the code units
    of a binary string, which [btoa] encodes. *)
Definition encode (bytes : list Z) : option jsstring :=
  Base64.btoa (map fromCharCode bytes).

(** The store conversion of a [Uint8Array] element. *)
Definition ToUint8 (n : Z) : Z := n mod 256.

(** [decode(base64)] *)
Definition decode (base64 : jsstring) : option (list Z) :=
  option_map (map ToUint8) (Base64.atob base64).

(** Truncation toward zero. *)
Definition Qtrunc (q : Q) : Z := Z.quot (Qnum q) (Z.pos (Qden q)).

(** Two's complement reading of a 16-bit pattern. *)
Definition signed16 (u : Z) : Z := if 32768 <=? u then u - 65536 else u.

(** The range of an [Int16Array] element. *)
Definition inInt16 (v : Z) : Prop := -32768 <= v <= 32767.

(** The store conversion of an [Int16Array] element: truncate, reduce
    modulo 2^16, read as two's complement.  Nothing is clamped. *)
Definition ToInt16 (x : Q) : Z := signed16 (Qtrunc x mod 65536).

(** [new Uint8Array(int16.buffer)]: low byte first. *)
Definition Uint8Array_of_Int16Array (int16 : list Z) : list Z :=
  flat_map (fun v => let u := v mod 65536 in [u mod 256; u / 256]) int16.

(** [new Int16Array(data.buffer)]: a [RangeError] (here [None]) when the
    byte length is odd. *)
Fixpoint Int16Array_of_bytes (data : list Z) : option (list Z) :=
  match data with
  | [] => Some []
  | lo :: hi :: rest =>
      option_map (cons (signed16 (lo + 256 * hi))) (Int16Array_of_bytes rest)
  | [_] => None
  end.

Record AudioContext := { ctxSampleRate : Z }.

Record AudioBuffer := {
  numberOfChannels : nat;
  length : nat;
  sampleRate : Z;
  channels : list (list Q)
}.

(** [buffer.duration], in seconds. *)
Definition duration (b : AudioBuffer) : Q :=
  inject_Z (Z.of_nat (length b)) / inject_Z (sampleRate b).

(** [ctx.createBuffer(numChannels, frameCount, sampleRate)] throws a
    [NotSupportedError] outside the ranges below (those every
    implementation supports); the loops of [decodeAudioData] then fill
    [channelData[i]] for the frames the buffer has. *)
Definition decodeAudioData (data : list Z) (ctx : AudioContext)
    (sampleRate : Z) (numChannels : nat) : option AudioBuffer :=
  match Int16Array_of_bytes data with
  | None => None
  | Some dataInt16 =>
      let frameCount := (List.length dataInt16 / numChannels)%nat in
      if ((1 <=? numChannels) && (numChannels <=? 32))%nat
         && (1 <=? frameCount)%nat
         && (8000 <=? sampleRate) && (sampleRate <=? 96000)
      then
        Some {| numberOfChannels := numChannels;
                length := frameCount;
                sampleRate := sampleRate;
                channels :=
                  map (fun channel =>
                         map (fun i =>
                                (inject_Z (nth (i * numChannels + channel)%nat
                                               dataInt16 0%Z)
                                 / 32768)%Q)
                             (seq 0 frameCount))
                      (seq 0 numChannels) |}
      else None
  end.

(** The [Blob] of the client library: base64 data and a MIME type, both
    optional in its declaration. *)
Record GenAIAPIBlob := {
  data : option jsstring;
  mimeType : option jsstring
}.

(** [createBlob(data)].  [encode] is applied to bytes and never throws
    (see [createBlob_returns]); the [None] branch only propagates the
    type of [btoa]. *)
Definition createBlob (samples : list Q) : option GenAIAPIBlob :=
  let int16 := map (fun x => ToInt16 (x * 32768)%Q) samples in
  match encode (Uint8Array_of_Int16Array int16) with
  | Some d =>
      Some {| data := Some d; mimeType := Some (str "audio/pcm;rate=16000") |}
  | None => None
  end.

(** ** Server messages *)

Record Transcription := { text : option jsstring }.

Record Part := { inlineData : option GenAIAPIBlob }.

Record Content := { parts : option (list Part) }.

Record LiveServerContent := {
  inputTranscription : option Transcription;
  outputTranscription : option Transcription;
  turnComplete : option bool;
  modelTurn : option Content;
  interrupted : option bool
}.

Record LiveServerMessage := { serverContent : option LiveServerContent }.

(** [o?.f] *)
Definition chain {A B} (o : option A) (f : A -> option B) : option B :=
  match o with Some a => f a | None => None end.

(** Truthiness of an optional boolean field. *)
Definition isTrue (o : option bool) : bool :=
  match o with Some true => true | _ => false end.

(** [s += t]: an absent [t] is [undefined] and appends its name. *)
Definition appendText (s : jsstring) (t : option jsstring) : jsstring :=
  s ++ match t with Some x => x | None => str "undefined" end.

(** [message.serverContent?.modelTurn?.parts?.[0]?.inlineData?.data] *)
Definition audioDataOf (message : LiveServerMessage) : option jsstring :=
  chain (chain (chain (chain (chain (serverContent message) modelTurn) parts)
                      (fun ps => nth_error ps 0%nat))
               inlineData)
        data.

(** ** The component's state *)

Inductive Speaker := user | model.

Record Entry := { speaker : Speaker; entryText : jsstring }.

Record MediaStream := { getTracks : list nat }.

Record ScriptProcessorNode := { bufferSize : Z }.

Record MediaStreamAudioSourceNode := { mediaStream : MediaStream }.

(** An [AudioBufferSourceNode]; [nodeId] stands for the identity of the
    object. *)
Record AudioBufferSourceNode := { nodeId : nat; buffer : AudioBuffer }.

(** The promise returned by [live.connect], again with its identity. *)
Record SessionPromise := { promiseId : nat }.

Record AudioContextRefs := {
  input : option AudioContext;
  output : option AudioContext;
  processor : option ScriptProcessorNode;
  source : option MediaStreamAudioSourceNode
}.

(** [sources] is a [Set], kept in insertion order. *)
Record OutputPlayback := {
  nextStartTime : Q;
  sources : list AudioBufferSourceNode
}.

Record TranscriptionRefs := {
  currentInput : jsstring;
  currentOutput : jsstring
}.

(** The four [useState] cells and the six [useRef] cells of the
    component; [allocated] counts the objects created so far and gives a
    new object its identity. *)
Record State := {
  isSessionActive : bool;
  statusMessage : jsstring;
  error : option jsstring;
  transcriptionHistory : list Entry;
  sessionPromiseRef : option SessionPromise;
  streamRef : option MediaStream;
  audioContextRefs : AudioContextRefs;
  outputPlayback : OutputPlayback;
  transcriptionRefs : TranscriptionRefs;
  aiRef : bool;
  allocated : nat
}.

(** The state of a freshly mounted component. *)
Definition initialState : State :=
  {| isSessionActive := false;
     statusMessage := str "Click Start to begin conversation.";
     error := None;
     transcriptionHistory := [];
     sessionPromiseRef := None;
     streamRef := None;
     audioContextRefs :=
       {| input := None; output := None; processor := None; source := None |};
     outputPlayback := {| nextStartTime := 0; sources := [] |};
     transcriptionRefs := {| currentInput := []; currentOutput := [] |};
     aiRef := false;
     allocated := 0 |}.

(** What a handler does to the devices and to the connection. *)
Inductive Effect :=
| getUserMedia
| liveConnect (p : SessionPromise)
| sessionClose (p : SessionPromise)
| sendRealtimeInput (media : GenAIAPIBlob)
| trackStop (track : nat)
| processorDisconnect (n : ScriptProcessorNode)
| sourceDisconnect (n : MediaStreamAudioSourceNode)
| contextClose (c : AudioContext)
| sourceConnect (n : MediaStreamAudioSourceNode) (p : ScriptProcessorNode)
| processorConnect (p : ScriptProcessorNode)
| bufferSourceConnect (n : AudioBufferSourceNode)
| bufferSourceStart (n : AudioBufferSourceNode) (when : Q)
| bufferSourceStop (n : AudioBufferSourceNode).

(** Whether a handler ran to its end or threw. *)
Inductive Outcome := Returned | Threw.

(** *** Assignments to the cells *)

Definition setIsSessionActive (v : bool) (s : State) : State :=
  {| isSessionActive := v;
     statusMessage := statusMessage s;
     error := error s;
     transcriptionHistory := transcriptionHistory s;
     sessionPromiseRef := sessionPromiseRef s;
     streamRef := streamRef s;
     audioContextRefs := audioContextRefs s;
     outputPlayback := outputPlayback s;
     transcriptionRefs := transcriptionRefs s;
     aiRef := aiRef s;
     allocated := allocated s |}.

Definition setStatusMessage (v : jsstring) (s : State) : State :=
  {| isSessionActive := isSessionActive s;
     statusMessage := v;
     error := error s;
     transcriptionHistory := transcriptionHistory s;
     sessionPromiseRef := sessionPromiseRef s;
     streamRef := streamRef s;
     audioContextRefs := audioContextRefs s;
     outputPlayback := outputPlayback s;
     transcriptionRefs := transcriptionRefs s;
     aiRef := aiRef s;
     allocated := allocated s |}.

Definition setError (v : option jsstring) (s : State) : State :=
  {| isSessionActive := isSessionActive s;
     statusMessage := statusMessage s;
     error := v;
     transcriptionHistory := transcriptionHistory s;
     sessionPromiseRef := sessionPromiseRef s;
     streamRef := streamRef s;
     audioContextRefs := audioContextRefs s;
     outputPlayback := outputPlayback s;
     transcriptionRefs := transcriptionRefs s;
     aiRef := aiRef s;
     allocated := allocated s |}.

Definition setTranscriptionHistory (v : list Entry) (s : State) : State :=
  {| isSessionActive := isSessionActive s;
     statusMessage := statusMessage s;
     error := error s;
     transcriptionHistory := v;
     sessionPromiseRef := sessionPromiseRef s;
     streamRef := streamRef s;
     audioContextRefs := audioContextRefs s;
     outputPlayback := outputPlayback s;
     transcriptionRefs := transcriptionRefs s;
     aiRef := aiRef s;
     allocated := allocated s |}.

Definition set_sessionPromiseRef (v : option SessionPromise) (s : State)
  : State :=
  {| isSessionActive := isSessionActive s;
     statusMessage := statusMessage s;
     error := error s;
     transcriptionHistory := transcriptionHistory s;
     sessionPromiseRef := v;
     streamRef := streamRef s;
     audioContextRefs := audioContextRefs s;
     outputPlayback := outputPlayback s;
     transcriptionRefs := transcriptionRefs s;
     aiRef := aiRef s;
     allocated := allocated s |}.

Definition set_streamRef (v : option MediaStream) (s : State) : State :=
  {| isSessionActive := isSessionActive s;
     statusMessage := statusMessage s;
     error := error s;
     transcriptionHistory := transcriptionHistory s;
     sessionPromiseRef := sessionPromiseRef s;
     streamRef := v;
     audioContextRefs := audioContextRefs s;
     outputPlayback := outputPlayback s;
     transcriptionRefs := transcriptionRefs s;
     aiRef := aiRef s;
     allocated := allocated s |}.

Definition set_audioContextRefs (v : AudioContextRefs) (s : State) : State :=
  {| isSessionActive := isSessionActive s;
     statusMessage := statusMessage s;
     error := error s;
     transcriptionHistory := transcriptionHistory s;
     sessionPromiseRef := sessionPromiseRef s;
     streamRef := streamRef s;
     audioContextRefs := v;
     outputPlayback := outputPlayback s;
     transcriptionRefs := transcriptionRefs s;
     aiRef := aiRef s;
     allocated := allocated s |}.

Definition set_outputPlayback (v : OutputPlayback) (s : State) : State :=
  {| isSessionActive := isSessionActive s;
     statusMessage := statusMessage s;
     error := error s;
     transcriptionHistory := transcriptionHistory s;
     sessionPromiseRef := sessionPromiseRef s;
     streamRef := streamRef s;
     audioContextRefs := audioContextRefs s;
     outputPlayback := v;
     transcriptionRefs := transcriptionRefs s;
     aiRef := aiRef s;
     allocated := allocated s |}.

Definition set_transcriptionRefs (v : TranscriptionRefs) (s : State) : State :=
  {| isSessionActive := isSessionActive s;
     statusMessage := statusMessage s;
     error := error s;
     transcriptionHistory := transcriptionHistory s;
     sessionPromiseRef := sessionPromiseRef s;
     streamRef := streamRef s;
     audioContextRefs := audioContextRefs s;
     outputPlayback := outputPlayback s;
     transcriptionRefs := v;
     aiRef := aiRef s;
     allocated := allocated s |}.

Definition set_aiRef (v : bool) (s : State) : State :=
  {| isSessionActive := isSessionActive s;
     statusMessage := statusMessage s;
     error := error s;
     transcriptionHistory := transcriptionHistory s;
     sessionPromiseRef := sessionPromiseRef s;
     streamRef := streamRef s;
     audioContextRefs := audioContextRefs s;
     outputPlayback := outputPlayback s;
     transcriptionRefs := transcriptionRefs s;
     aiRef := v;
     allocated := allocated s |}.

Definition set_allocated (v : nat) (s : State) : State :=
  {| isSessionActive := isSessionActive s;
     statusMessage := statusMessage s;
     error := error s;
     transcriptionHistory := transcriptionHistory s;
     sessionPromiseRef := sessionPromiseRef s;
     streamRef := streamRef s;
     audioContextRefs := audioContextRefs s;
     outputPlayback := outputPlayback s;
     transcriptionRefs := transcriptionRefs s;
     aiRef := aiRef s;
     allocated := v |}.

(** Assignments to the fields of the objects held by the refs. *)
Definition set_input (v : option AudioContext) (s : State) : State :=
  let r := audioContextRefs s in
  set_audioContextRefs
    {| input := v; output := output r;
       processor := processor r; source := source r |} s.

Definition set_output (v : option AudioContext) (s : State) : State :=
  let r := audioContextRefs s in
  set_audioContextRefs
    {| input := input r; output := v;
       processor := processor r; source := source r |} s.

Definition set_processor (v : option ScriptProcessorNode) (s : State) : State :=
  let r := audioContextRefs s in
  set_audioContextRefs
    {| input := input r; output := output r;
       processor := v; source := source r |} s.

Definition set_source (v : option MediaStreamAudioSourceNode) (s : State)
  : State :=
  let r := audioContextRefs s in
  set_audioContextRefs
    {| input := input r; output := output r;
       processor := processor r; source := v |} s.

Definition set_nextStartTime (v : Q) (s : State) : State :=
  set_outputPlayback
    {| nextStartTime := v; sources := sources (outputPlayback s) |} s.

Definition set_sources (v : list AudioBufferSourceNode) (s : State) : State :=
  set_outputPlayback
    {| nextStartTime := nextStartTime (outputPlayback s); sources := v |} s.

Definition set_currentInput (v : jsstring) (s : State) : State :=
  set_transcriptionRefs
    {| currentInput := v;
       currentOutput := currentOutput (transcriptionRefs s) |} s.

Definition set_currentOutput (v : jsstring) (s : State) : State :=
  set_transcriptionRefs
    {| currentInput := currentInput (transcriptionRefs s);
       currentOutput := v |} s.

(** ** Handlers

    A handler takes the state to a new state, a list of effects and an
    outcome; a handler that throws keeps what it did before. *)

Definition Handler := State -> State * list Effect * Outcome.

Definition ret : Handler := fun s => (s, [], Returned).

Definition throw : Handler := fun s => (s, [], Threw).

Definition assign (f : State -> State) : Handler :=
  fun s => (f s, [], Returned).

Definition emit (es : list Effect) : Handler :=
  fun s => (s, es, Returned).

Definition andThen (h1 h2 : Handler) : Handler :=
  fun s =>
    match h1 s with
    | (s1, es1, Returned) =>
        match h2 s1 with (s2, es2, o) => (s2, es1 ++ es2, o) end
    | (s1, es1, Threw) => (s1, es1, Threw)
    end.

Notation "h1 ;; h2" := (andThen h1 h2) (at level 61, right associativity).

(** Reading the cells before going on. *)
Definition reading (k : State -> Handler) : Handler := fun s => k s s.

Definition stateOf (r : State * list Effect * Outcome) : State := fst (fst r).
Definition effectsOf (r : State * list Effect * Outcome) : list Effect :=
  snd (fst r).
Definition outcomeOf (r : State * list Effect * Outcome) : Outcome := snd r.

(** [cleanup] *)
Definition cleanup : Handler :=
  reading (fun s =>
    match streamRef s with
    | Some stream =>
        emit (map trackStop (getTracks stream)) ;; assign (set_streamRef None)
    | None => ret
    end) ;;
  reading (fun s =>
    match processor (audioContextRefs s) with
    | Some p => emit [processorDisconnect p] ;; assign (set_processor None)
    | None => ret
    end) ;;
  reading (fun s =>
    match source (audioContextRefs s) with
    | Some n => emit [sourceDisconnect n] ;; assign (set_source None)
    | None => ret
    end) ;;
  reading (fun s =>
    match input (audioContextRefs s) with
    | Some c => emit [contextClose c] ;; assign (set_input None)
    | None => ret
    end) ;;
  reading (fun s =>
    match output (audioContextRefs s) with
    | Some c => emit [contextClose c] ;; assign (set_output None)
    | None => ret
    end) ;;
  reading (fun s => emit (map bufferSourceStop (sources (outputPlayback s)))) ;;
  assign (set_sources []) ;;
  assign (setIsSessionActive false) ;;
  assign (setStatusMessage (str "Session ended. Click Start to begin again.")).

(** [handleStop] *)
Definition handleStop : Handler :=
  reading (fun s =>
    match sessionPromiseRef s with
    | Some p => emit [sessionClose p] ;; assign (set_sessionPromiseRef None)
    | None => ret
    end) ;;
  cleanup.

(** [handleStart].  [granted] is what awaiting [getUserMedia] gives: the
    stream, or [None] when the request is rejected.  Creating the client
    and the two audio contexts and calling [live.connect] are taken to
    succeed at once; a failing connection is reported later through
    [onerror]. *)
Definition handleStart (granted : option MediaStream) : Handler :=
  assign (setError None) ;;
  assign (setTranscriptionHistory []) ;;
  assign (setStatusMessage (str "Requesting microphone access...")) ;;
  emit [getUserMedia] ;;
  match granted with
  | None =>
      assign (setError (Some (str
        "Microphone access denied. Please allow microphone access in your browser settings."))) ;;
      assign (setStatusMessage (str "Microphone access denied."))
  | Some stream =>
      assign (set_streamRef (Some stream)) ;;
      reading (fun s => if aiRef s then ret else assign (set_aiRef true)) ;;
      assign (set_input (Some {| ctxSampleRate := 16000 |})) ;;
      assign (set_output (Some {| ctxSampleRate := 24000 |})) ;;
      assign (set_nextStartTime 0) ;;
      assign (setIsSessionActive true) ;;
      assign (setStatusMessage (str "Connecting to Gemini...")) ;;
      reading (fun s =>
        let p := {| promiseId := allocated s |} in
        emit [liveConnect p] ;;
        assign (set_allocated (S (allocated s))) ;;
        assign (set_sessionPromiseRef (Some p)))
  end.

(** [processor.onaudioprocess], with the samples of channel 0. *)
Definition onaudioprocess (inputData : list Q) : Handler :=
  match createBlob inputData with
  | Some pcmBlob =>
      reading (fun s =>
        match sessionPromiseRef s with
        | Some _ => emit [sendRealtimeInput pcmBlob]
        | None => ret
        end)
  | None => throw
  end.

(** [onopen]: the non-null assertions on the input context and on the
    stream throw a [TypeError] when the cell is empty. *)
Definition onopen : Handler :=
  assign (setStatusMessage (str "Connected. Start speaking...")) ;;
  reading (fun s =>
    match input (audioContextRefs s), streamRef s with
    | Some _, Some stream =>
        let n := {| mediaStream := stream |} in
        let p := {| bufferSize := 4096 |} in
        assign (set_source (Some n)) ;;
        assign (set_processor (Some p)) ;;
        emit [sourceConnect n p; processorConnect p]
    | _, _ => throw
    end).

(** [currentSources.add(source)] *)
Definition Set_add (n : AudioBufferSourceNode)
    (l : list AudioBufferSourceNode) : list AudioBufferSourceNode :=
  if existsb (fun m => Nat.eqb (nodeId m) (nodeId n)) l then l else l ++ [n].

(** [currentSources.delete(source)] *)
Definition Set_delete (n : AudioBufferSourceNode)
    (l : list AudioBufferSourceNode) : list AudioBufferSourceNode :=
  filter (fun m => negb (Nat.eqb (nodeId m) (nodeId n))) l.

(** The listener of a source's [ended] event. *)
Definition onended (n : AudioBufferSourceNode) : Handler :=
  reading (fun s =>
    assign (set_sources (Set_delete n (sources (outputPlayback s))))).

(** The transcription part of [onmessage], one definition for each of
    its three conditionals. *)
Definition appendInputTranscription (message : LiveServerMessage) : Handler :=
  match chain (serverContent message) inputTranscription with
  | Some t =>
      reading (fun s =>
        assign (set_currentInput
                  (appendText (currentInput (transcriptionRefs s)) (text t))))
  | None => ret
  end.

Definition appendOutputTranscription (message : LiveServerMessage) : Handler :=
  match chain (serverContent message) outputTranscription with
  | Some t =>
      reading (fun s =>
        assign (set_currentOutput
                  (appendText (currentOutput (transcriptionRefs s)) (text t))))
  | None => ret
  end.

Definition flushOnTurnComplete (message : LiveServerMessage) : Handler :=
  if isTrue (chain (serverContent message) turnComplete) then
    reading (fun s =>
      let fullInput := currentInput (transcriptionRefs s) in
      let fullOutput := currentOutput (transcriptionRefs s) in
      (if truthy (trim fullInput) then
         reading (fun s' =>
           assign (setTranscriptionHistory
                     (transcriptionHistory s'
                      ++ [{| speaker := user; entryText := fullInput |}])))
       else ret) ;;
      (if truthy (trim fullOutput) then
         reading (fun s' =>
           assign (setTranscriptionHistory
                     (transcriptionHistory s'
                      ++ [{| speaker := model; entryText := fullOutput |}])))
       else ret) ;;
      assign (set_currentInput []) ;;
      assign (set_currentOutput []))
  else ret.

Definition handleTranscription (message : LiveServerMessage) : Handler :=
  appendInputTranscription message ;;
  appendOutputTranscription message ;;
  flushOnTurnComplete message.

(** [currentTime] is the reading of [outputCtx.currentTime]. *)
Definition handleAudioOutput (message : LiveServerMessage) (currentTime : Q)
  : Handler :=
  match audioDataOf message with
  | Some audioData =>
      if truthy audioData then
        reading (fun s =>
          match output (audioContextRefs s) with
          | None => throw
          | Some outputCtx =>
              assign (set_nextStartTime
                        (Qmax (nextStartTime (outputPlayback s)) currentTime)) ;;
              match chain (decode audioData)
                          (fun bytes => decodeAudioData bytes outputCtx 24000 1)
              with
              | None => throw
              | Some audioBuffer =>
                  reading (fun s1 =>
                    let source :=
                      {| nodeId := allocated s1; buffer := audioBuffer |} in
                    assign (set_allocated (S (allocated s1))) ;;
                    emit [bufferSourceConnect source;
                          bufferSourceStart source
                            (nextStartTime (outputPlayback s1))] ;;
                    assign (set_nextStartTime
                              (nextStartTime (outputPlayback s1)
                               + duration audioBuffer)%Q) ;;
                    assign (set_sources
                              (Set_add source (sources (outputPlayback s1)))))
              end
          end)
      else ret
  | None => ret
  end.

Definition handleInterrupted (message : LiveServerMessage) : Handler :=
  if isTrue (chain (serverContent message) interrupted) then
    reading (fun s =>
      emit (map bufferSourceStop (sources (outputPlayback s)))) ;;
    assign (set_sources []) ;;
    assign (set_nextStartTime 0)
  else ret.

(** [onmessage] *)
Definition onmessage (message : LiveServerMessage) (currentTime : Q)
  : Handler :=
  handleTranscription message ;;
  handleAudioOutput message currentTime ;;
  handleInterrupted message.

(** [onerror] *)
Definition onerror (message : jsstring) : Handler :=
  assign (setError (Some (str "Connection error: " ++ message))) ;;
  handleStop.

(** [onclose] *)
Definition onclose : Handler := handleStop.

(** ** Events and runs *)

Inductive Event :=
| Start (granted : option MediaStream)
| Stop
| Open
| AudioProcess (inputData : list Q)
| Message (message : LiveServerMessage) (currentTime : Q)
| Ended (n : AudioBufferSourceNode)
| Error (message : jsstring)
| Close.

Definition handle (e : Event) : Handler :=
  match e with
  | Start granted => handleStart granted
  | Stop => handleStop
  | Open => onopen
  | AudioProcess inputData => onaudioprocess inputData
  | Message message currentTime => onmessage message currentTime
  | Ended n => onended n
  | Error message => onerror message
  | Close => onclose
  end.

(** The events are handled one after the other; a handler that throws
    does not stop the next event from being handled. *)
Fixpoint run (es : list Event) (s : State) : State * list Effect :=
  match es with
  | [] => (s, [])
  | e :: es' =>
      let r := handle e s in
      let r' := run es' (stateOf r) in
      (fst r', effectsOf r ++ snd r')
  end.

(** ** Vocabulary of the statements *)

(** What the cells hold once a session has been stopped. *)
Definition stopped (s : State) : State :=
  {| isSessionActive := false;
     statusMessage := str "Session ended. Click Start to begin again.";
     error := error s;
     transcriptionHistory := transcriptionHistory s;
     sessionPromiseRef := None;
     streamRef := None;
     audioContextRefs :=
       {| input := None; output := None; processor := None; source := None |};
     outputPlayback :=
       {| nextStartTime := nextStartTime (outputPlayback s); sources := [] |};
     transcriptionRefs := transcriptionRefs s;
     aiRef := aiRef s;
     allocated := allocated s |}.

Definition held {A} (o : option A) (f : A -> list Effect) : list Effect :=
  match o with Some a => f a | None => [] end.

(** The handles a state holds, each with the call that releases it, in
    the order of [handleStop]. *)
Definition releases (s : State) : list Effect :=
  held (sessionPromiseRef s) (fun p => [sessionClose p])
  ++ held (streamRef s) (fun stream => map trackStop (getTracks stream))
  ++ held (processor (audioContextRefs s)) (fun p => [processorDisconnect p])
  ++ held (source (audioContextRefs s)) (fun n => [sourceDisconnect n])
  ++ held (input (audioContextRefs s)) (fun c => [contextClose c])
  ++ held (output (audioContextRefs s)) (fun c => [contextClose c])
  ++ map bufferSourceStop (sources (outputPlayback s)).

(** An effect that opens something: a microphone request or a
    connection. *)
Definition opens (e : Effect) : bool :=
  match e with getUserMedia | liveConnect _ => true | _ => false end.

(** The playback clock. *)
Definition clock (s : State) : Q := nextStartTime (outputPlayback s).

(** The text a message adds to each accumulator. *)
Definition fragmentText (t : option Transcription) : jsstring :=
  match t with
  | Some t' => match text t' with Some x => x | None => str "undefined" end
  | None => []
  end.

Definition inputFragment (m : LiveServerMessage) : jsstring :=
  fragmentText (chain (serverContent m) inputTranscription).

Definition outputFragment (m : LiveServerMessage) : jsstring :=
  fragmentText (chain (serverContent m) outputTranscription).

Definition isTurnComplete (m : LiveServerMessage) : bool :=
  isTrue (chain (serverContent m) turnComplete).

Definition isInterrupted (m : LiveServerMessage) : bool :=
  isTrue (chain (serverContent m) interrupted).

(** A string with a character that is not white space. *)
Definition nonBlank (s : jsstring) : bool := truthy (trim s).

(** The entries a flush of the two accumulators appends. *)
Definition flushed (fullInput fullOutput : jsstring) : list Entry :=
  (if nonBlank fullInput
   then [{| speaker := user; entryText := fullInput |}] else [])
  ++ (if nonBlank fullOutput
      then [{| speaker := model; entryText := fullOutput |}] else []).

(** The audio a message carries, when it carries some. *)
Definition audioPresent (m : LiveServerMessage) : option jsstring :=
  match audioDataOf m with
  | Some a => if truthy a then Some a else None
  | None => None
  end.

(** The buffer the audio of a message decodes to. *)
Definition fragmentOf (ctx : AudioContext) (m : LiveServerMessage)
  : option AudioBuffer :=
  chain (audioPresent m)
        (fun a => chain (decode a)
                        (fun bytes => decodeAudioData bytes ctx 24000 1)).

(** The buffers started by a list of effects, each with its start time
    and its duration. *)
Fixpoint scheduled (es : list Effect) : list (Q * Q) :=
  match es with
  | [] => []
  | bufferSourceStart n when :: es' =>
      (when, duration (buffer n)) :: scheduled es'
  | _ :: es' => scheduled es'
  end.

(** The schedule in the words of the specification: from the clock and
    the fragments, each with the device time at which it is handled and
    its duration, fragment by fragment the start
    [max(playbackClock, deviceCurrentTime)], the clock being advanced by
    the duration. *)
Fixpoint expectedStarts (playbackClock : Q) (fragments : list (Q * Q))
  : list (Q * Q) :=
  match fragments with
  | [] => []
  | (deviceCurrentTime, d) :: rest =>
      let start := Qmax playbackClock deviceCurrentTime in
      (start, d) :: expectedStarts (start + d)%Q rest
  end.

Fixpoint expectedClock (playbackClock : Q) (fragments : list (Q * Q)) : Q :=
  match fragments with
  | [] => playbackClock
  | (deviceCurrentTime, d) :: rest =>
      expectedClock (Qmax playbackClock deviceCurrentTime + d)%Q rest
  end.

(** No buffer starts before the one scheduled before it has ended. *)
Fixpoint noOverlap (l : list (Q * Q)) : Prop :=
  match l with
  | (start1, d1) :: l' =>
      match l' with
      | (start2, _) :: _ => (start1 + d1 <= start2)%Q
      | [] => True
      end /\ noOverlap l'
  | [] => True
  end.

(** A message that is no interruption and whose audio, if it carries
    some, decodes. *)
Definition plays (ctx : AudioContext) (m : LiveServerMessage) : bool :=
  negb (isInterrupted m)
  && match audioPresent m, fragmentOf ctx m with
     | Some _, None => false
     | _, _ => true
     end.

(** The fragments of a list of messages, each with the device time at
    which the message is handled and its duration. *)
Definition fragmentsOf (ctx : AudioContext)
    (l : list (LiveServerMessage * Q)) : list (Q * Q) :=
  flat_map (fun mt =>
              match fragmentOf ctx (fst mt) with
              | Some b => [(snd mt, duration b)]
              | None => []
              end) l.

Definition messages (l : list (LiveServerMessage * Q)) : list Event :=
  map (fun mt => Message (fst mt) (snd mt)) l.

(** Messages with one field set. *)
Definition contentOnly (c : LiveServerContent) : LiveServerMessage :=
  {| serverContent := Some c |}.

Definition inputTranscriptionMessage (t : jsstring) : LiveServerMessage :=
  contentOnly {| inputTranscription := Some {| text := Some t |};
                 outputTranscription := None; turnComplete := None;
                 modelTurn := None; interrupted := None |}.

Definition outputTranscriptionMessage (t : jsstring) : LiveServerMessage :=
  contentOnly {| inputTranscription := None;
                 outputTranscription := Some {| text := Some t |};
                 turnComplete := None;
                 modelTurn := None; interrupted := None |}.

Definition turnCompleteMessage : LiveServerMessage :=
  contentOnly {| inputTranscription := None; outputTranscription := None;
                 turnComplete := Some true;
                 modelTurn := None; interrupted := None |}.

Definition interruptedMessage : LiveServerMessage :=
  contentOnly {| inputTranscription := None; outputTranscription := None;
                 turnComplete := None;
                 modelTurn := None; interrupted := Some true |}.

Definition audioMessage (base64 : jsstring) : LiveServerMessage :=
  contentOnly {| inputTranscription := None; outputTranscription := None;
                 turnComplete := None;
                 modelTurn :=
                   Some {| parts :=
                     Some [{| inlineData :=
                       Some {| data := Some base64;
                               mimeType := Some (str "audio/pcm;rate=24000") |}
                     |}] |};
                 interrupted := None |}.

(** The base64 text of [frames] frames of silence, as the server sends
    them: two zero bytes for each frame. *)
Definition silence (frames : nat) : jsstring :=
  match encode (repeat 0 (2 * frames)) with Some d => d | None => [] end.

(** A session that [handleStart] has just started and [onopen] has
    connected. *)
Definition activeState : State :=
  fst (run [Start (Some {| getTracks := [0%nat] |}); Open] initialState).

(** A character [encode] may write: one of the 64 of the alphabet, or
    the pad. *)
Definition isBase64Char (c : Z) : bool :=
  match Base64.value_of c with
  | Some _ => true
  | None => c =? Base64.pad
  end.

(** Buffers that follow each other without a gap. *)
Fixpoint backToBack (l : list (Q * Q)) : Prop :=
  match l with
  | (start1, d1) :: l' =>
      match l' with
      | (start2, _) :: _ => (start2 == start1 + d1)%Q
      | [] => True
      end /\ backToBack l'
  | [] => True
  end.

Definition isSome {A} (o : option A) : bool :=
  match o with Some _ => true | None => false end.

(** The handles of a session are held together: an active session has
    its connection, its microphone stream and both audio contexts; an
    inactive one holds nothing and plays nothing; and the capture nodes
    come and go as a pair. *)
Definition coherent (s : State) : Prop :=
  (if isSessionActive s
   then isSome (sessionPromiseRef s) = true
        /\ isSome (streamRef s) = true
        /\ isSome (input (audioContextRefs s)) = true
        /\ isSome (output (audioContextRefs s)) = true
   else sessionPromiseRef s = None
        /\ streamRef s = None
        /\ audioContextRefs s
           = {| input := None; output := None;
                processor := None; source := None |}
        /\ sources (outputPlayback s) = [])
  /\ isSome (processor (audioContextRefs s))
     = isSome (source (audioContextRefs s)).

(** An effect that releases a handle. *)
Definition releasesHandle (e : Effect) : bool :=
  match e with
  | sessionClose _ | trackStop _ | processorDisconnect _
  | sourceDisconnect _ | contextClose _ | bufferSourceStop _ => true
  | _ => false
  end.

(** A message whose model turn has the given parts and nothing else. *)
Definition partsMessage (ps : list Part) : LiveServerMessage :=
  contentOnly {| inputTranscription := None; outputTranscription := None;
                 turnComplete := None;
                 modelTurn := Some {| parts := Some ps |};
                 interrupted := None |}.

(** The identities of the active sources are those of objects created
    earlier, and no two are the same. *)
Definition freshIds (s : State) : Prop :=
  (forall x, In x (sources (outputPlayback s)) ->
             (nodeId x < allocated s)%nat)
  /\ NoDup (map nodeId (sources (outputPlayback s))).

(** A message with audio and the interruption marker. *)
Definition interruptingAudioMessage (base64 : jsstring) : LiveServerMessage :=
  contentOnly {| inputTranscription := None; outputTranscription := None;
                 turnComplete := None;
                 modelTurn :=
                   Some {| parts :=
                     Some [{| inlineData :=
                       Some {| data := Some base64;
                               mimeType := Some (str "audio/pcm;rate=24000") |}
                     |}] |};
                 interrupted := Some true |}.

(** The sum of the durations of a list of fragments. *)
Definition totalDuration (l : list (Q * Q)) : Q :=
  fold_right Qplus 0%Q (map snd l).

(** * Properties *)

Arguments trim : simpl never.
Arguments str : simpl never.
Arguments Qmax : simpl never.
Arguments Qplus : simpl never.
Arguments duration : simpl never.

(** ** Base64 *)

Module Base64Facts.
Import Base64.

Lemma list_ind3 {A} (P : list A -> Prop) :
  P [] -> (forall a, P [a]) -> (forall a b, P [a; b]) ->
  (forall a b c l, P l -> P (a :: b :: c :: l)) ->
  forall l, P l.
Proof.
  intros H0 H1 H2 H3.
  assert (H : forall l, P l /\ (forall a, P (a :: l))
                        /\ (forall a b, P (a :: b :: l))).
  { induction l as [|x l [IH0 [IH1 IH2]]].
    - auto.
    - repeat split; auto. }
  intro l. apply H.
Qed.

Lemma lor_shiftl (x y k : Z) :
  0 <= k -> 0 <= y < 2 ^ k -> Z.lor (Z.shiftl x k) y = x * 2 ^ k + y.
Proof.
  intros Hk Hy.
  assert (Hland : Z.land (Z.shiftl x k) y = 0).
  { apply Z.bits_inj'. intros n Hn.
    rewrite Z.land_spec, Z.bits_0.
    destruct (Z.lt_ge_cases n k) as [Hlt | Hge].
    - rewrite Z.shiftl_spec_low by assumption. reflexivity.
    - destruct (Z.eq_dec y 0) as [-> | Hy0].
      + rewrite Z.bits_0. apply andb_false_r.
      + rewrite (Z.bits_above_log2 y n).
        * apply andb_false_r.
        * lia.
        * apply Z.log2_lt_pow2; try lia.
          apply Z.lt_le_trans with (2 ^ k); try lia.
          apply Z.pow_le_mono_r; lia. }
  rewrite <- Z.lxor_lor by assumption.
  rewrite <- Z.add_nocarry_lxor by assumption.
  rewrite Z.shiftl_mul_pow2 by assumption. reflexivity.
Qed.

Lemma land_low (x k : Z) : 0 <= k -> Z.land x (2 ^ k - 1) = x mod 2 ^ k.
Proof.
  intro Hk. rewrite <- Z.land_ones by assumption.
  f_equal. rewrite Z.ones_equiv. lia.
Qed.

Ltac to_arith :=
  repeat rewrite Z.shiftr_div_pow2 by lia;
  repeat rewrite Z.shiftl_mul_pow2 by lia;
  change (2 ^ 2) with 4 in *; change (2 ^ 4) with 16 in *;
  change (2 ^ 6) with 64 in *.

Ltac arith := to_arith; Z.div_mod_to_equations; lia.

Lemma land3 x : Z.land x 3 = x mod 4.
Proof. exact (land_low x 2 ltac:(lia)). Qed.

Lemma land15 x : Z.land x 15 = x mod 16.
Proof. exact (land_low x 4 ltac:(lia)). Qed.

Lemma land63 x : Z.land x 63 = x mod 64.
Proof. exact (land_low x 6 ltac:(lia)). Qed.

(** The second and third 6-bit values of a group, as arithmetic. *)
Lemma second_value a b :
  byte b ->
  Z.lor (Z.shiftl (Z.land a 3) 4) (Z.shiftr b 4) = a mod 4 * 16 + b / 16.
Proof.
  unfold byte. intro Hb. rewrite lor_shiftl; rewrite ?land3; arith.
Qed.

Lemma third_value b c :
  byte c ->
  Z.lor (Z.shiftl (Z.land b 15) 2) (Z.shiftr c 6) = b mod 16 * 4 + c / 64.
Proof.
  unfold byte. intro Hc. rewrite lor_shiftl; rewrite ?land15; arith.
Qed.

Lemma first_byte a b :
  byte a -> byte b ->
  Z.lor (Z.shiftl (Z.shiftr a 2) 2) (Z.shiftr (a mod 4 * 16 + b / 16) 4) = a.
Proof.
  unfold byte. intros Ha Hb. rewrite lor_shiftl; arith.
Qed.

Lemma second_byte a b c :
  byte a -> byte b -> byte c ->
  Z.lor (Z.shiftl (Z.land (a mod 4 * 16 + b / 16) 15) 4)
        (Z.shiftr (b mod 16 * 4 + c / 64) 2) = b.
Proof.
  unfold byte. intros Ha Hb Hc. rewrite land15.
  rewrite lor_shiftl; arith.
Qed.

Lemma third_byte b c :
  byte b -> byte c ->
  Z.lor (Z.shiftl (Z.land (b mod 16 * 4 + c / 64) 3) 6) (Z.land c 63) = c.
Proof.
  unfold byte. intros Hb Hc. rewrite land3, land63.
  rewrite lor_shiftl; arith.
Qed.

(** The byte recovered from a final group of two or three values. *)
Lemma first_byte_alone a :
  byte a ->
  Z.lor (Z.shiftl (Z.shiftr a 2) 2) (Z.shiftr (Z.shiftl (Z.land a 3) 4) 4) = a.
Proof.
  unfold byte. intro Ha. rewrite land3. rewrite lor_shiftl; arith.
Qed.

Lemma second_byte_alone a b :
  byte a -> byte b ->
  Z.lor (Z.shiftl (Z.land (a mod 4 * 16 + b / 16) 15) 4)
        (Z.shiftr (Z.shiftl (Z.land b 15) 2) 2) = b.
Proof.
  unfold byte. intros Ha Hb. rewrite !land15.
  rewrite lor_shiftl; arith.
Qed.

Lemma sextets_range l : Forall byte l -> Forall sextet (sextets l).
Proof.
  induction l as [| a | a b | a b c l IH] using list_ind3; intro H.
  - constructor.
  - inversion_clear H as [|? ? Ha _]. unfold byte, sextet in *.
    cbn [sextets]. rewrite land3. repeat constructor; arith.
  - inversion_clear H as [|? ? Ha H']. inversion_clear H' as [|? ? Hb _].
    cbn [sextets]. rewrite second_value by assumption. rewrite land15.
    unfold byte, sextet in *. repeat constructor; arith.
  - inversion_clear H as [|? ? Ha H']. inversion_clear H' as [|? ? Hb H''].
    inversion_clear H'' as [|? ? Hc Hl].
    cbn [sextets]. rewrite second_value, third_value by assumption.
    rewrite land63. unfold byte, sextet in *.
    repeat (constructor; [arith|]). auto.
Qed.

Lemma decode_values_sextets l :
  Forall byte l -> decode_values (sextets l) = l.
Proof.
  induction l as [| a | a b | a b c l IH] using list_ind3; intro H.
  - reflexivity.
  - inversion_clear H as [|? ? Ha _].
    cbn [sextets decode_values]. now rewrite first_byte_alone.
  - inversion_clear H as [|? ? Ha H']. inversion_clear H' as [|? ? Hb _].
    cbn [sextets decode_values]. rewrite second_value by assumption.
    now rewrite first_byte, second_byte_alone.
  - inversion_clear H as [|? ? Ha H']. inversion_clear H' as [|? ? Hb H''].
    inversion_clear H'' as [|? ? Hc Hl].
    cbn [sextets decode_values].
    rewrite second_value, third_value by assumption.
    rewrite first_byte, second_byte, third_byte by assumption.
    now rewrite IH.
Qed.

Ltac split_test c :=
  match c with
  | context [?a <? ?b] => destruct (Z.ltb_spec a b)
  | context [?a <=? ?b] => destruct (Z.leb_spec a b)
  | context [?a =? ?b] => destruct (Z.eqb_spec a b)
  end;
  cbv [andb orb negb]; try lia.

Ltac by_cases :=
  repeat match goal with
    | |- context [if ?c then _ else _] => split_test c
    end;
  repeat match goal with
    | |- ?c = false => split_test c
    end;
  try reflexivity; try (f_equal; lia).

Lemma value_of_char_of v : sextet v -> value_of (char_of v) = Some v.
Proof.
  unfold sextet, char_of. intro Hv. by_cases; unfold value_of; by_cases.
Qed.

Lemma char_of_not_pad v : sextet v -> (char_of v =? pad) = false.
Proof. unfold sextet, char_of, pad. intro Hv. by_cases. Qed.

Lemma char_of_not_whitespace v :
  sextet v -> isAsciiWhitespace (char_of v) = false.
Proof.
  unfold sextet, char_of. intro Hv.
  by_cases; unfold isAsciiWhitespace; by_cases.
Qed.

Lemma values_of_chars vs :
  Forall sextet vs -> values_of (map char_of vs) = Some vs.
Proof.
  induction 1 as [|v vs Hv _ IH]; cbn [map values_of].
  - reflexivity.
  - now rewrite value_of_char_of, IH.
Qed.

Lemma strip_padding_cons c s :
  (c =? pad) = false -> s <> [] ->
  strip_padding (c :: s) = c :: strip_padding s.
Proof.
  intros Hc Hs. destruct s as [|d [|e s]].
  - congruence.
  - cbn [strip_padding]. rewrite Hc. destruct (d =? pad); reflexivity.
  - reflexivity.
Qed.

Lemma strip_padding_app_chars vs s :
  Forall sextet vs -> s <> [] ->
  strip_padding (map char_of vs ++ s) = map char_of vs ++ strip_padding s.
Proof.
  intros H Hs. induction H as [|v vs Hv _ IH].
  - reflexivity.
  - cbn [map app]. rewrite strip_padding_cons, IH.
    + reflexivity.
    + now apply char_of_not_pad.
    + destruct vs; [cbn; assumption | discriminate].
Qed.

Lemma encode_bytes_group a b c rest :
  encode_bytes (a :: b :: c :: rest)
  = char_of (Z.shiftr a 2)
    :: char_of (Z.lor (Z.shiftl (Z.land a 3) 4) (Z.shiftr b 4))
    :: char_of (Z.lor (Z.shiftl (Z.land b 15) 2) (Z.shiftr c 6))
    :: char_of (Z.land c 63)
    :: encode_bytes rest.
Proof. reflexivity. Qed.

Lemma sextets_group a b c rest :
  sextets (a :: b :: c :: rest)
  = Z.shiftr a 2
    :: Z.lor (Z.shiftl (Z.land a 3) 4) (Z.shiftr b 4)
    :: Z.lor (Z.shiftl (Z.land b 15) 2) (Z.shiftr c 6)
    :: Z.land c 63
    :: sextets rest.
Proof. reflexivity. Qed.

(** Encoding writes the characters of the 6-bit values and pads the
    last group. *)
Lemma strip_padding_encode_bytes l :
  Forall byte l -> strip_padding (encode_bytes l) = map char_of (sextets l).
Proof.
  intro H. pose proof (sextets_range l H) as Hr. revert H Hr.
  induction l as [| a | a b | a b c l IH] using list_ind3; intros H Hr.
  - reflexivity.
  - cbn [sextets] in Hr.
    change (encode_bytes [a]) with (map char_of (sextets [a]) ++ [pad; pad]).
    rewrite strip_padding_app_chars by (assumption || discriminate).
    reflexivity.
  - cbn [sextets] in Hr.
    change (encode_bytes [a; b]) with (map char_of (sextets [a; b]) ++ [pad]).
    rewrite strip_padding_app_chars by (assumption || discriminate).
    cbn. reflexivity.
  - cbn [sextets] in Hr.
    inversion_clear Hr as [|? ? H1 Hr1]. inversion_clear Hr1 as [|? ? H2 Hr2].
    inversion_clear Hr2 as [|? ? H3 Hr3]. inversion_clear Hr3 as [|? ? H4 Hr4].
    inversion_clear H as [|? ? _ H']. inversion_clear H' as [|? ? _ H''].
    inversion_clear H'' as [|? ? _ Hl].
    destruct l as [|d l].
    + cbn. now rewrite (char_of_not_pad _ H4).
    + assert (Hne : encode_bytes (d :: l) <> [])
        by (destruct l as [|? [|? ?]]; discriminate).
      specialize (IH Hl Hr4).
      rewrite encode_bytes_group, sextets_group.
      remember (d :: l) as l' eqn:El. clear El.
      cbn [map].
      rewrite !strip_padding_cons;
        try (apply char_of_not_pad; assumption); try discriminate;
        try assumption.
      now rewrite IH.
Qed.

Lemma encode_bytes_no_whitespace l :
  Forall byte l ->
  filter (fun c => negb (isAsciiWhitespace c)) (encode_bytes l)
  = encode_bytes l.
Proof.
  intro H. pose proof (sextets_range l H) as Hr. revert H Hr.
  induction l as [| a | a b | a b c l IH] using list_ind3; intros H Hr;
    cbn [sextets] in Hr.
  - reflexivity.
  - inversion_clear Hr as [|? ? H1 Hr1]. inversion_clear Hr1 as [|? ? H2 _].
    cbn [encode_bytes filter].
    rewrite !char_of_not_whitespace by assumption. reflexivity.
  - inversion_clear Hr as [|? ? H1 Hr1]. inversion_clear Hr1 as [|? ? H2 Hr2].
    inversion_clear Hr2 as [|? ? H3 _].
    cbn [encode_bytes filter].
    rewrite !char_of_not_whitespace by assumption. reflexivity.
  - inversion_clear Hr as [|? ? H1 Hr1]. inversion_clear Hr1 as [|? ? H2 Hr2].
    inversion_clear Hr2 as [|? ? H3 Hr3]. inversion_clear Hr3 as [|? ? H4 Hr4].
    inversion_clear H as [|? ? _ H']. inversion_clear H' as [|? ? _ H''].
    inversion_clear H'' as [|? ? _ Hl].
    cbn [encode_bytes filter].
    rewrite !char_of_not_whitespace by assumption. cbn [negb].
    now rewrite IH.
Qed.

Lemma encode_bytes_length l :
  exists k, List.length (encode_bytes l) = (4 * k)%nat.
Proof.
  induction l as [| a | a b | a b c l [k IH]] using list_ind3.
  - now exists 0%nat.
  - now exists 1%nat.
  - now exists 1%nat.
  - exists (S k). cbn [encode_bytes List.length]. rewrite IH. lia.
Qed.

Lemma sextets_length l :
  exists k, List.length (sextets l) = (4 * k)%nat
            \/ List.length (sextets l) = (4 * k + 2)%nat
            \/ List.length (sextets l) = (4 * k + 3)%nat.
Proof.
  induction l as [| a | a b | a b c l [k IH]] using list_ind3.
  - exists 0%nat. now left.
  - exists 0%nat. right. now left.
  - exists 0%nat. right. now right.
  - exists (S k). cbn [sextets List.length]. lia.
Qed.

(** [atob] undoes [btoa] on every binary string. *)
Theorem atob_btoa l :
  Forall byte l ->
  exists s, btoa l = Some s /\ atob s = Some l.
Proof.
  intro H. exists (encode_bytes l). split.
  - unfold btoa.
    replace (forallb _ l) with true; [reflexivity|].
    symmetry. apply forallb_forall. intros x Hx.
    rewrite Forall_forall in H. specialize (H x Hx). unfold byte in H.
    apply andb_true_intro. split; [apply Z.leb_le | apply Z.leb_le]; lia.
  - unfold atob. rewrite encode_bytes_no_whitespace by assumption.
    destruct (encode_bytes_length l) as [k Hk].
    replace (Z.of_nat (List.length (encode_bytes l)) mod 4 =? 0) with true
      by (symmetry; apply Z.eqb_eq; rewrite Hk; Z.div_mod_to_equations; lia).
    rewrite strip_padding_encode_bytes by assumption.
    rewrite length_map.
    replace (Z.of_nat (List.length (sextets l)) mod 4 =? 1) with false
      by (symmetry; apply Z.eqb_neq;
          destruct (sextets_length l) as [j [Hj | [Hj | Hj]]]; rewrite Hj;
          Z.div_mod_to_equations; lia).
    rewrite values_of_chars by (apply sextets_range; assumption).
    cbn [option_map]. now rewrite decode_values_sextets.
Qed.

End Base64Facts.

(** ** The PCM wire format *)

Lemma signed16_range u : 0 <= u < 65536 -> inInt16 (signed16 u).
Proof.
  unfold inInt16, signed16. intro Hu.
  destruct (Z.leb_spec 32768 u); lia.
Qed.

(** Whatever is stored, an [Int16Array] element is a 16-bit integer. *)
Lemma ToInt16_range x : inInt16 (ToInt16 x).
Proof.
  unfold ToInt16. apply signed16_range. apply Z.mod_pos_bound. lia.
Qed.

(** A 16-bit integer is stored unchanged. *)
Lemma signed16_mod v : inInt16 v -> signed16 (v mod 65536) = v.
Proof.
  unfold inInt16, signed16. intro Hv.
  destruct (Z.leb_spec 32768 (v mod 65536)); Z.div_mod_to_equations; lia.
Qed.

Lemma Uint8Array_of_Int16Array_bytes l :
  Forall Base64.byte (Uint8Array_of_Int16Array l).
Proof.
  unfold Uint8Array_of_Int16Array, Base64.byte.
  induction l as [|v l IH]; cbn [flat_map app].
  - constructor.
  - constructor; [|constructor; [|exact IH]]; Z.div_mod_to_equations; lia.
Qed.

(** Reading the bytes of an [Int16Array] back as an [Int16Array]. *)
Lemma Int16Array_of_bytes_of_Int16Array l :
  Forall inInt16 l -> Int16Array_of_bytes (Uint8Array_of_Int16Array l) = Some l.
Proof.
  unfold Uint8Array_of_Int16Array.
  induction 1 as [|v l Hv _ IH]; cbn [flat_map app Int16Array_of_bytes].
  - reflexivity.
  - rewrite IH. cbn [option_map]. do 2 f_equal.
    rewrite <- (signed16_mod v Hv) at 3. f_equal.
    Z.div_mod_to_equations; lia.
Qed.

(** [decode] undoes [encode] on the contents of every [Uint8Array]. *)
Lemma decode_encode bytes :
  Forall Base64.byte bytes ->
  exists s, encode bytes = Some s /\ decode s = Some bytes.
Proof.
  intro H. unfold encode, decode.
  assert (Hid : forall f, (forall b, Base64.byte b -> f b = b) ->
                          map f bytes = bytes).
  { intros f Hf. induction H as [|b l Hb _ IH]; cbn [map].
    - reflexivity.
    - now rewrite Hf, IH. }
  rewrite (Hid fromCharCode)
    by (unfold fromCharCode, Base64.byte; intros;
        apply Z.mod_small; lia).
  destruct (Base64Facts.atob_btoa bytes H) as [s [Hs Hd]].
  exists s. split; [exact Hs|]. rewrite Hd. cbn [option_map].
  rewrite (Hid ToUint8)
    by (unfold ToUint8, Base64.byte; intros; apply Z.mod_small; lia).
  reflexivity.
Qed.

(** [createBlob] returns on every array of samples, with the MIME type of
    16 kHz PCM, and its data decodes to the bytes of the 16-bit
    samples. *)
Lemma createBlob_returns samples :
  exists d,
    createBlob samples
    = Some {| data := Some d; mimeType := Some (str "audio/pcm;rate=16000") |}
    /\ decode d
       = Some (Uint8Array_of_Int16Array
                 (map (fun x => ToInt16 (x * 32768)%Q) samples)).
Proof.
  unfold createBlob.
  destruct (decode_encode _ (Uint8Array_of_Int16Array_bytes
              (map (fun x => ToInt16 (x * 32768)%Q) samples)))
    as [d [Hd Hr]].
  exists d. rewrite Hd. split; [reflexivity | exact Hr].
Qed.

(** Inside the half-open range the scaled sample fits: it is stored as
    its truncation. *)
Lemma ToInt16_scaled (x : Q) :
  (-1 <= x)%Q -> (x < 1)%Q -> ToInt16 (x * 32768)%Q = Qtrunc (x * 32768)%Q.
Proof.
  intros Hlo Hhi. unfold ToInt16. apply signed16_mod.
  unfold inInt16, Qtrunc. destruct x as [n d].
  unfold Qle, Qlt in *. cbn [Qnum Qden Qmult] in *.
  rewrite Pos.mul_1_r.
  pose proof (Pos2Z.is_pos d) as Hd.
  Z.quot_rem_to_equations. nia.
Qed.

(** The quantisation error of a sample of the half-open range is below
    one step. *)
Lemma quantisation_error (x : Q) :
  (-1 <= x)%Q -> (x < 1)%Q ->
  (Qabs (inject_Z (ToInt16 (x * 32768)) / 32768 - x) < 1 # 32768)%Q.
Proof.
  intros Hlo Hhi. rewrite ToInt16_scaled by assumption.
  apply Qabs_Qlt_condition. unfold Qtrunc. destruct x as [n d].
  unfold Qle, Qlt, Qminus, Qplus, Qopp, Qdiv, Qmult, Qinv, inject_Z in *.
  cbn [Qnum Qden] in *.
  rewrite Pos.mul_1_r.
  pose proof (Pos2Z.is_pos d) as Hd.
  rewrite !Pos2Z.inj_mul.
  Z.quot_rem_to_equations. split; nia.
Qed.

(** At the positive bound the scaled sample is 32768, one above the
    largest 16-bit integer, and the store wraps it around. *)
Lemma ToInt16_at_one (x : Q) : (x == 1)%Q -> ToInt16 (x * 32768)%Q = -32768.
Proof.
  intro Hx. unfold ToInt16, Qtrunc. destruct x as [n d].
  unfold Qeq in Hx. cbn [Qnum Qden Qmult] in *.
  rewrite Pos.mul_1_r.
  replace n with (Z.pos d) by lia.
  rewrite Z.mul_comm, Z.quot_mul by lia. reflexivity.
Qed.

Lemma decode_channel {A} (f : Z -> A) (l : list Z) :
  map (fun i => f (nth (i * 1 + 0)%nat l 0)) (seq 0 (List.length l)) = map f l.
Proof.
  assert (H : forall pre,
             map (fun i => f (nth (i * 1 + 0)%nat (pre ++ l) 0))
                 (seq (List.length pre) (List.length l)) = map f l).
  { induction l as [|x l IH]; intro pre; cbn [List.length seq map].
    - reflexivity.
    - f_equal.
      + f_equal. replace (List.length pre * 1 + 0)%nat with (List.length pre) by lia.
        apply nth_middle.
      + specialize (IH (pre ++ [x])).
        rewrite <- app_assoc, length_app in IH. cbn [List.length app] in IH.
        replace (List.length pre + 1)%nat with (S (List.length pre)) in IH by lia.
        exact IH. }
  exact (H []).
Qed.

(** On one channel at 24 kHz, [decodeAudioData] returns for every
    non-empty even number of bytes, with each 16-bit sample divided by
    32768. *)
Lemma decodeAudioData_mono data ctx int16s :
  Int16Array_of_bytes data = Some int16s -> int16s <> [] ->
  decodeAudioData data ctx 24000 1
  = Some {| numberOfChannels := 1;
            length := List.length int16s;
            sampleRate := 24000;
            channels := [map (fun v => (inject_Z v / 32768)%Q) int16s] |}.
Proof.
  intros Hd Hne. unfold decodeAudioData. rewrite Hd.
  rewrite Nat.div_1_r.
  assert (Hlen : (1 <=? List.length int16s)%nat = true).
  { apply Nat.leb_le. destruct int16s; [congruence | cbn; lia]. }
  rewrite Hlen. cbn [andb Nat.leb Z.leb Z.compare Pos.compare Pos.compare_cont].
  cbn [seq map]. do 3 f_equal.
  apply (decode_channel (fun v => (inject_Z v / 32768)%Q)).
Qed.

(** A decoded buffer lasts some time. *)
Lemma duration_pos data ctx rate n b :
  decodeAudioData data ctx rate n = Some b -> (0 < duration b)%Q.
Proof.
  unfold decodeAudioData.
  destruct (Int16Array_of_bytes data) as [l|]; [|discriminate].
  destruct (_ && _) eqn:E; [|discriminate].
  intro H. injection H as <-.
  apply andb_prop in E. destruct E as [E E4].
  apply andb_prop in E. destruct E as [E E3].
  apply andb_prop in E. destruct E as [_ E2].
  apply Nat.leb_le in E2. apply Z.leb_le in E3.
  unfold duration. cbn [length sampleRate].
  unfold Qlt, Qdiv, Qmult, Qinv, inject_Z. cbn [Qnum Qden].
  destruct rate as [|r|r]; try lia.
  cbn [Qnum Qden]. lia.
Qed.

(** ** Stopping a session *)

Lemma handleStop_stopped s :
  handleStop s = (stopped s, releases s, Returned).
Proof.
  destruct s as [act st err hist [p|] [stream|]
                   [[ic|] [oc|] [pr|] [so|]] [t srcs] tr ai al];
    unfold handleStop, cleanup, releases, stopped, andThen, reading, assign,
      emit, ret, held; cbn; rewrite ?app_nil_r; reflexivity.
Qed.

Lemma stopped_stopped s : stopped (stopped s) = stopped s.
Proof. reflexivity. Qed.

Lemma releases_stopped s : releases (stopped s) = [].
Proof. reflexivity. Qed.

Lemma releases_open_nothing s :
  forallb (fun e => negb (opens e)) (releases s) = true.
Proof.
  unfold releases, held.
  repeat rewrite forallb_app.
  destruct (sessionPromiseRef s), (streamRef s) as [stream|],
    (processor (audioContextRefs s)), (source (audioContextRefs s)),
    (input (audioContextRefs s)), (output (audioContextRefs s));
    cbn [forallb opens negb andb];
    repeat match goal with
      | |- context [forallb ?f (map ?g ?l)] =>
          replace (forallb f (map g l)) with true
            by (symmetry; apply forallb_forall; intros e He;
                apply in_map_iff in He; destruct He as [? [<- _]]; reflexivity)
      end; reflexivity.
Qed.

(** C5. [handleStop] is idempotent: the first call returns, and a second
    call right after it returns as well, leaves every cell as the first
    call left it and releases nothing (no track is stopped, no node is
    disconnected, no context is closed, no buffer source is stopped, no
    session is closed). *)
Theorem handleStop_idempotent (s : State) :
  outcomeOf (handleStop s) = Returned
  /\ handleStop (stateOf (handleStop s))
     = (stateOf (handleStop s), [], Returned).
Proof.
  rewrite handleStop_stopped. cbn [outcomeOf stateOf fst snd].
  split; [reflexivity|].
  rewrite handleStop_stopped, stopped_stopped, releases_stopped. reflexivity.
Qed.

(** ** Starting a session *)

(** C7. When the microphone request is rejected, [handleStart] returns
    without throwing; the only effect is the microphone request itself,
    so no connection is opened; the session is not activated and no
    session promise, stream or audio context is installed; the status
    line reads that microphone access was denied and the error cell asks
    the user to allow it. *)
Theorem handleStart_denied (s : State) :
  let r := handleStart None s in
  outcomeOf r = Returned
  /\ effectsOf r = [getUserMedia]
  /\ isSessionActive (stateOf r) = isSessionActive s
  /\ sessionPromiseRef (stateOf r) = sessionPromiseRef s
  /\ streamRef (stateOf r) = streamRef s
  /\ audioContextRefs (stateOf r) = audioContextRefs s
  /\ statusMessage (stateOf r) = str "Microphone access denied."
  /\ error (stateOf r)
     = Some (str "Microphone access denied. Please allow microphone access in your browser settings.").
Proof.
  cbv zeta. repeat split.
Qed.

(** ** Connection errors *)

Lemma onerror_stopped message s :
  onerror message s
  = (stopped (setError (Some (str "Connection error: " ++ message)) s),
     releases s, Returned).
Proof.
  unfold onerror, andThen, assign. rewrite handleStop_stopped. reflexivity.
Qed.

(** C8, as the code has it.  On a connection error the handler returns
    without throwing; the error cell holds the text "Connection error: "
    followed by the transport's message, unchanged; the session is
    stopped: every handle held is released, every cell that held one is
    empty, the session is inactive; and nothing is opened again. *)
Theorem onerror_stops (message : jsstring) (s : State) :
  let r := onerror message s in
  outcomeOf r = Returned
  /\ error (stateOf r) = Some (str "Connection error: " ++ message)
  /\ effectsOf r = releases s
  /\ forallb (fun e => negb (opens e)) (effectsOf r) = true
  /\ isSessionActive (stateOf r) = false
  /\ sessionPromiseRef (stateOf r) = None
  /\ streamRef (stateOf r) = None
  /\ audioContextRefs (stateOf r)
     = {| input := None; output := None; processor := None; source := None |}
  /\ sources (outputPlayback (stateOf r)) = [].
Proof.
  cbv zeta. rewrite onerror_stopped.
  cbn [outcomeOf stateOf effectsOf fst snd].
  repeat split. apply releases_open_nothing.
Qed.

(** C8 as stated fails: the error cell is not the transport's message
    alone. *)
Lemma onerror_message_not_alone :
  error (stateOf (onerror (str "timeout") initialState))
  <> Some (str "timeout").
Proof. vm_compute. discriminate. Qed.

(** ** The three parts of [onmessage] *)

(** Evaluation of the handler combinators and of the cell assignments,
    leaving strings, numbers and lists alone. *)
Ltac cells :=
  cbv [andThen reading assign emit ret throw stateOf effectsOf outcomeOf
       fst snd
       setIsSessionActive setStatusMessage setError setTranscriptionHistory
       set_sessionPromiseRef set_streamRef set_audioContextRefs
       set_outputPlayback set_transcriptionRefs set_aiRef set_allocated
       set_input set_output set_processor set_source
       set_nextStartTime set_sources set_currentInput set_currentOutput
       isSessionActive statusMessage error transcriptionHistory
       sessionPromiseRef streamRef audioContextRefs outputPlayback
       transcriptionRefs aiRef allocated
       input output processor source nextStartTime sources
       currentInput currentOutput clock] in *;
  cbn [app] in *.

Lemma andThen_returned (h1 h2 : Handler) s s1 :
  h1 s = (s1, [], Returned) -> (h1 ;; h2) s = h2 s1.
Proof.
  intro H. unfold andThen. rewrite H.
  destruct (h2 s1) as [[s2 es2] o]. reflexivity.
Qed.

Lemma appendInputTranscription_does m s :
  appendInputTranscription m s
  = (set_currentInput (currentInput (transcriptionRefs s) ++ inputFragment m) s,
     [], Returned).
Proof.
  unfold appendInputTranscription, inputFragment, fragmentText, appendText.
  destruct s as [act st err hist p stream refs play [ci co] ai al].
  destruct (chain (serverContent m) inputTranscription) as [[ti]|];
    cells; rewrite ?app_nil_r; reflexivity.
Qed.

Lemma appendOutputTranscription_does m s :
  appendOutputTranscription m s
  = (set_currentOutput
       (currentOutput (transcriptionRefs s) ++ outputFragment m) s,
     [], Returned).
Proof.
  unfold appendOutputTranscription, outputFragment, fragmentText, appendText.
  destruct s as [act st err hist p stream refs play [ci co] ai al].
  destruct (chain (serverContent m) outputTranscription) as [[to]|];
    cells; rewrite ?app_nil_r; reflexivity.
Qed.

Lemma flushOnTurnComplete_does m s :
  flushOnTurnComplete m s
  = (if isTurnComplete m
     then set_transcriptionRefs {| currentInput := []; currentOutput := [] |}
            (setTranscriptionHistory
               (transcriptionHistory s
                ++ flushed (currentInput (transcriptionRefs s))
                           (currentOutput (transcriptionRefs s))) s)
     else s,
     [], Returned).
Proof.
  unfold flushOnTurnComplete, isTurnComplete, flushed, nonBlank.
  destruct s as [act st err hist p stream refs play [ci co] ai al].
  destruct (isTrue (chain (serverContent m) turnComplete)); [|reflexivity].
  cells. destruct (truthy (trim ci)), (truthy (trim co)); cells;
    rewrite ?app_nil_r, <- ?app_assoc; reflexivity.
Qed.

Lemma handleTranscription_does m s :
  handleTranscription m s
  = (let fullInput := currentInput (transcriptionRefs s) ++ inputFragment m in
     let fullOutput := currentOutput (transcriptionRefs s) ++ outputFragment m in
     if isTurnComplete m
     then set_transcriptionRefs {| currentInput := []; currentOutput := [] |}
            (setTranscriptionHistory
               (transcriptionHistory s ++ flushed fullInput fullOutput) s)
     else set_transcriptionRefs
            {| currentInput := fullInput; currentOutput := fullOutput |} s,
     [], Returned).
Proof.
  unfold handleTranscription.
  rewrite (andThen_returned _ _ _ _ (appendInputTranscription_does m s)).
  rewrite (andThen_returned _ _ _ _ (appendOutputTranscription_does m _)).
  rewrite flushOnTurnComplete_does.
  destruct s as [act st err hist p stream refs play [ci co] ai al].
  destruct (isTurnComplete m); reflexivity.
Qed.

Lemma handleAudioOutput_does m now s :
  handleAudioOutput m now s
  = match audioPresent m with
    | None => (s, [], Returned)
    | Some _ =>
        match output (audioContextRefs s) with
        | None => (s, [], Threw)
        | Some ctx =>
            let start := Qmax (clock s) now in
            match fragmentOf ctx m with
            | None => (set_nextStartTime start s, [], Threw)
            | Some b =>
                let n := {| nodeId := allocated s; buffer := b |} in
                (set_sources (Set_add n (sources (outputPlayback s)))
                   (set_nextStartTime (start + duration b)%Q
                      (set_allocated (S (allocated s)) s)),
                 [bufferSourceConnect n; bufferSourceStart n start],
                 Returned)
            end
        end
    end.
Proof.
  unfold handleAudioOutput, fragmentOf, audioPresent.
  destruct s as [act st err hist p stream [ic oc pr so] [t srcs] tr ai al].
  destruct (audioDataOf m) as [a|]; [|reflexivity].
  destruct (truthy a); [|reflexivity].
  cbn [chain]. cells. destruct oc as [ctx|]; [|reflexivity].
  cells.
  destruct (chain (decode a) (fun bytes => decodeAudioData bytes ctx 24000 1))
    as [b|]; reflexivity.
Qed.

Lemma handleInterrupted_does m s :
  handleInterrupted m s
  = if isInterrupted m
    then (set_nextStartTime 0 (set_sources [] s),
          map bufferSourceStop (sources (outputPlayback s)), Returned)
    else (s, [], Returned).
Proof.
  unfold handleInterrupted, isInterrupted.
  destruct s as [act st err hist p stream refs [t srcs] tr ai al].
  destruct (isTrue (chain (serverContent m) interrupted)); [|reflexivity].
  cells. rewrite app_nil_r. reflexivity.
Qed.

Lemma onmessage_does m now s :
  onmessage m now s
  = (handleAudioOutput m now ;; handleInterrupted m)
      (stateOf (handleTranscription m s)).
Proof.
  unfold onmessage. apply andThen_returned.
  rewrite handleTranscription_does. reflexivity.
Qed.

(** The transcription part leaves the playback cells alone. *)
Lemma handleTranscription_frame m s :
  let s1 := stateOf (handleTranscription m s) in
  audioContextRefs s1 = audioContextRefs s
  /\ outputPlayback s1 = outputPlayback s
  /\ allocated s1 = allocated s.
Proof.
  rewrite handleTranscription_does.
  destruct s as [act st err hist p stream refs play [ci co] ai al].
  destruct (isTurnComplete m); repeat split.
Qed.

(** The audio and interruption parts leave the transcript cells alone. *)
Lemma playback_frame m now s :
  let r := (handleAudioOutput m now ;; handleInterrupted m) s in
  transcriptionHistory (stateOf r) = transcriptionHistory s
  /\ transcriptionRefs (stateOf r) = transcriptionRefs s
  /\ audioContextRefs (stateOf r) = audioContextRefs s.
Proof.
  cbv zeta. unfold andThen.
  rewrite handleAudioOutput_does.
  destruct s as [act st err hist p stream [ic oc pr so] [t srcs] tr ai al].
  destruct (audioPresent m) as [a|].
  - cells. destruct oc as [ctx|]; [|repeat split].
    destruct (fragmentOf ctx m) as [b|]; [|repeat split].
    rewrite handleInterrupted_does.
    destruct (isInterrupted m); repeat split.
  - rewrite handleInterrupted_does.
    destruct (isInterrupted m); repeat split.
Qed.

(** ** Transcript assembly *)







Lemma onmessage_transcript m now s :
  let r := onmessage m now s in
  let fullInput := currentInput (transcriptionRefs s) ++ inputFragment m in
  let fullOutput := currentOutput (transcriptionRefs s) ++ outputFragment m in
  transcriptionHistory (stateOf r)
  = transcriptionHistory s
    ++ (if isTurnComplete m then flushed fullInput fullOutput else [])
  /\ transcriptionRefs (stateOf r)
     = if isTurnComplete m
       then {| currentInput := []; currentOutput := [] |}
       else {| currentInput := fullInput; currentOutput := fullOutput |}.
Proof.
  cbv zeta. rewrite onmessage_does.
  destruct (playback_frame m now (stateOf (handleTranscription m s)))
    as [Hh [Hr _]].
  rewrite Hh, Hr. rewrite handleTranscription_does.
  destruct s as [act st err hist p stream refs play [ci co] ai al].
  destruct (isTurnComplete m); cells; rewrite ?app_nil_r; split; reflexivity.
Qed.

(** C4, as the code has it.  On a turn-complete marker the accumulators,
    with what the message itself adds to them, are flushed: a user entry
    is appended when the user-side text has a character that is not
    white space, then a model entry when the model-side text has one; so
    one entry for one such text, two entries in user-then-model order for
    two, none when both are empty or blank; and both accumulators are
    empty afterwards. *)
Theorem turnComplete_flushes (m : LiveServerMessage) (now : Q) (s : State) :
  isTurnComplete m = true ->
  let r := onmessage m now s in
  let fullInput := currentInput (transcriptionRefs s) ++ inputFragment m in
  let fullOutput := currentOutput (transcriptionRefs s) ++ outputFragment m in
  let u := {| speaker := user; entryText := fullInput |} in
  let o := {| speaker := model; entryText := fullOutput |} in
  transcriptionHistory (stateOf r)
  = transcriptionHistory s
    ++ match nonBlank fullInput, nonBlank fullOutput with
       | true, true => [u; o]
       | true, false => [u]
       | false, true => [o]
       | false, false => []
       end
  /\ nonBlank [] = false
  /\ transcriptionRefs (stateOf r)
     = {| currentInput := []; currentOutput := [] |}.
Proof.
  intro Ht. cbv zeta.
  destruct (onmessage_transcript m now s) as [Hh Hr].
  rewrite Ht in Hh, Hr. rewrite Hh, Hr. unfold flushed.
  repeat split.
  destruct (nonBlank _), (nonBlank _); reflexivity.
Qed.

Lemma turnComplete_flushes_witness :
  let s := fst (run [Start (Some {| getTracks := [0%nat] |}); Open;
                     Message (inputTranscriptionMessage (str "Hi there")) 0;
                     Message (outputTranscriptionMessage (str "Hello!")) 0]
                    initialState) in
  transcriptionHistory (stateOf (onmessage turnCompleteMessage 1 s))
  = [{| speaker := user; entryText := str "Hi there" |};
     {| speaker := model; entryText := str "Hello!" |}]
  /\ transcriptionRefs (stateOf (onmessage turnCompleteMessage 1 s))
     = {| currentInput := []; currentOutput := [] |}.
Proof.
  cbv zeta.
  destruct (turnComplete_flushes turnCompleteMessage 1
              (fst (run [Start (Some {| getTracks := [0%nat] |}); Open;
                         Message (inputTranscriptionMessage (str "Hi there")) 0;
                         Message (outputTranscriptionMessage (str "Hello!")) 0]
                        initialState))
              eq_refl) as [Hh [_ Hr]].
  split; [|exact Hr].
  rewrite Hh. vm_compute. reflexivity.
Defined.

(** C4 as stated fails: an accumulator that is not empty but holds only
    white space produces no entry. *)
Lemma turnComplete_blank_not_flushed :
  let s := fst (run [Start (Some {| getTracks := [0%nat] |}); Open;
                     Message (inputTranscriptionMessage (str " ")) 0]
                    initialState) in
  currentInput (transcriptionRefs s) <> []
  /\ currentOutput (transcriptionRefs s) = []
  /\ transcriptionHistory (stateOf (onmessage turnCompleteMessage 1 s))
     = transcriptionHistory s.
Proof.
  vm_compute. repeat split. discriminate.
Qed.

(** ** Accumulators across sessions *)







(** ** The playback clock *)

Lemma onmessage_playback m now s :
  let r := onmessage m now s in
  audioContextRefs (stateOf r) = audioContextRefs s
  /\ effectsOf r
     = effectsOf ((handleAudioOutput m now ;; handleInterrupted m) s)
  /\ outcomeOf r
     = outcomeOf ((handleAudioOutput m now ;; handleInterrupted m) s)
  /\ outputPlayback (stateOf r)
     = outputPlayback
         (stateOf ((handleAudioOutput m now ;; handleInterrupted m) s)).
Proof.
  cbv zeta. rewrite onmessage_does.
  destruct (handleTranscription_frame m s) as [Ha [Hp Hn]].
  set (s1 := stateOf (handleTranscription m s)) in *.
  destruct (playback_frame m now s1) as [_ [_ Hc]].
  split; [now rewrite Hc|].
  unfold andThen. rewrite !handleAudioOutput_does.
  destruct s as [act st err hist p stream refs play tr ai al].
  destruct s1 as [act1 st1 err1 hist1 p1 stream1 refs1 play1 tr1 ai1 al1].
  cbn [audioContextRefs outputPlayback allocated] in Ha, Hp, Hn. subst.
  destruct (audioPresent m) as [a|].
  - unfold clock. cbn [audioContextRefs outputPlayback allocated].
    destruct (output refs) as [ctx|]; [|repeat split].
    destruct (fragmentOf ctx m) as [b|]; [|repeat split].
    rewrite !handleInterrupted_does.
    destruct (isInterrupted m); repeat split.
  - rewrite !handleInterrupted_does.
    destruct (isInterrupted m); repeat split.
Qed.

Lemma scheduled_app es1 es2 :
  scheduled (es1 ++ es2) = scheduled es1 ++ scheduled es2.
Proof.
  induction es1 as [|e es1 IH]; [reflexivity|].
  destruct e; cbn [app scheduled]; rewrite IH; reflexivity.
Qed.

Lemma scheduled_stops l : scheduled (map bufferSourceStop l) = [].
Proof. induction l as [|n l IH]; [reflexivity | exact IH]. Qed.

Lemma expectedStarts_app c l1 l2 :
  expectedStarts c (l1 ++ l2)
  = expectedStarts c l1 ++ expectedStarts (expectedClock c l1) l2.
Proof.
  revert c. induction l1 as [|[now d] l1 IH]; intro c; [reflexivity|].
  cbn [app expectedStarts expectedClock]. now rewrite IH.
Qed.

Lemma expectedClock_app c l1 l2 :
  expectedClock c (l1 ++ l2) = expectedClock (expectedClock c l1) l2.
Proof.
  revert c. induction l1 as [|[now d] l1 IH]; intro c; [reflexivity|].
  cbn [app expectedClock]. now rewrite IH.
Qed.

(** The expected schedule never overlaps, whatever the device times. *)
Lemma expectedStarts_noOverlap c l : noOverlap (expectedStarts c l).
Proof.
  revert c. induction l as [|[now d] l IH]; intro c; [exact I|].
  cbn [expectedStarts noOverlap]. split; [|apply IH].
  destruct l as [|[now' d'] l]; [exact I|].
  cbn [expectedStarts]. apply Q.le_max_l.
Qed.

Section Schedule.

(** The output context of the session, which [onmessage] never
    replaces. *)
Variable ctx : AudioContext.

Lemma fragmentsOf_cons mt l :
  fragmentsOf ctx (mt :: l) = fragmentsOf ctx [mt] ++ fragmentsOf ctx l.
Proof.
  unfold fragmentsOf. cbn [flat_map]. now rewrite app_nil_r.
Qed.

(** One message that is no interruption. *)
Lemma onmessage_plays m now s :
  output (audioContextRefs s) = Some ctx ->
  plays ctx m = true ->
  let r := onmessage m now s in
  output (audioContextRefs (stateOf r)) = Some ctx
  /\ scheduled (effectsOf r)
     = expectedStarts (clock s) (fragmentsOf ctx [(m, now)])
  /\ clock (stateOf r) = expectedClock (clock s) (fragmentsOf ctx [(m, now)]).
Proof.
  intros Hctx Hp. cbv zeta.
  destruct (onmessage_playback m now s) as [Ha [He [_ Hpl]]].
  unfold clock at 2. rewrite Ha, He, Hpl, Hctx. split; [reflexivity|].
  unfold andThen. rewrite handleAudioOutput_does, Hctx.
  unfold plays in Hp. apply andb_prop in Hp. destruct Hp as [Hi Hp].
  apply negb_true_iff in Hi.
  unfold fragmentsOf. cbn [flat_map fst snd]. rewrite app_nil_r.
  destruct (audioPresent m) as [a|] eqn:Ea.
  - destruct (fragmentOf ctx m) as [b|] eqn:Eb; [|discriminate].
    rewrite handleInterrupted_does, Hi.
    destruct s as [act st err hist p stream refs [t srcs] tr ai al].
    split; reflexivity.
  - assert (Eb : fragmentOf ctx m = None)
      by (unfold fragmentOf; rewrite Ea; reflexivity).
    rewrite Eb, handleInterrupted_does, Hi. split; reflexivity.
Qed.

(** C1. Take any messages of which none is an interruption and whose
    audio, where they carry some, decodes, handled one after the other
    at any device times by a session that has its output context.  The
    buffers started are the fragments, in order; each starts at
    [max(playbackClock, deviceCurrentTime)] for the clock and the device
    time its handler finds; the clock is then that start plus the
    fragment's duration; and no buffer starts before the one scheduled
    before it has ended. *)
Theorem fragments_scheduled (s : State) (l : list (LiveServerMessage * Q)) :
  output (audioContextRefs s) = Some ctx ->
  forallb (fun mt => plays ctx (fst mt)) l = true ->
  let r := run (messages l) s in
  scheduled (snd r) = expectedStarts (clock s) (fragmentsOf ctx l)
  /\ clock (fst r) = expectedClock (clock s) (fragmentsOf ctx l)
  /\ noOverlap (scheduled (snd r)).
Proof.
  intros Hctx Hl. cbv zeta.
  assert (H : scheduled (snd (run (messages l) s))
              = expectedStarts (clock s) (fragmentsOf ctx l)
              /\ clock (fst (run (messages l) s))
                 = expectedClock (clock s) (fragmentsOf ctx l)).
  { revert s Hctx. induction l as [|[m now] l IH]; intros s Hctx.
    - split; reflexivity.
    - cbn [forallb fst] in Hl. apply andb_prop in Hl. destruct Hl as [Hm Hl].
      destruct (onmessage_plays m now s Hctx Hm) as [Hc [Hs Hk]].
      destruct (IH Hl _ Hc) as [IHs IHk].
      change (messages ((m, now) :: l)) with (Message m now :: messages l).
      cbn [run fst snd handle].
      rewrite (fragmentsOf_cons (m, now) l).
      rewrite scheduled_app, expectedStarts_app, expectedClock_app.
      rewrite Hs, IHs, IHk, Hk. split; reflexivity. }
  destruct H as [Hs Hk]. repeat split; try assumption.
  rewrite Hs. apply expectedStarts_noOverlap.
Qed.

End Schedule.

(** Three fragments of 10 ms, 5 ms and 7.5 ms that arrive back to back:
    the third starts 15 ms after the first. *)
Lemma fragments_scheduled_witness :
  let ctx := {| ctxSampleRate := 24000 |} in
  let l := [(audioMessage (silence 240), 0%Q);
            (audioMessage (silence 120), 0%Q);
            (audioMessage (silence 180), 0%Q)] in
  let r := run (messages l) activeState in
  (scheduled (snd r) = expectedStarts (clock activeState) (fragmentsOf ctx l)
   /\ clock (fst r) = expectedClock (clock activeState) (fragmentsOf ctx l)
   /\ noOverlap (scheduled (snd r)))
  /\ map (fun wd => Qred (fst wd)) (scheduled (snd r))
     = [0; 1 # 100; 3 # 200]%Q
  /\ map (fun wd => Qred (snd wd)) (scheduled (snd r))
     = [1 # 100; 1 # 200; 3 # 400]%Q.
Proof.
  cbv zeta. split.
  - apply (fragments_scheduled {| ctxSampleRate := 24000 |} activeState).
    + reflexivity.
    + vm_compute. reflexivity.
  - vm_compute. split; reflexivity.
Defined.

(** ** Interruptions *)

Lemma In_Set_add n x l : In n l -> In n (Set_add x l).
Proof.
  unfold Set_add. intro H. destruct (existsb _ l); [exact H|].
  apply in_or_app. now left.
Qed.

(** What an interruption that is handled does. *)
Lemma onmessage_interrupted m now s :
  isInterrupted m = true ->
  outcomeOf (onmessage m now s) = Returned ->
  let r := onmessage m now s in
  (forall n, In n (sources (outputPlayback s)) ->
             In (bufferSourceStop n) (effectsOf r))
  /\ outputPlayback (stateOf r) = {| nextStartTime := 0; sources := [] |}.
Proof.
  intros Hi Ho. cbv zeta.
  destruct (onmessage_playback m now s) as [_ [He [Hq Hp]]].
  rewrite Hq in Ho. rewrite He, Hp. clear He Hq Hp.
  unfold andThen in *. rewrite handleAudioOutput_does in *.
  destruct s as [act st err hist p stream [ic oc pr so] [t srcs] tr ai al].
  cbn [audioContextRefs output outputPlayback sources] in *.
  destruct (audioPresent m) as [a|].
  - destruct oc as [ctx|]; [|discriminate].
    destruct (fragmentOf ctx m) as [b|]; [|discriminate].
    cbv zeta in *. rewrite handleInterrupted_does, Hi in *.
    cells. split; [|reflexivity].
    intros n Hn. right. right. apply in_map. now apply In_Set_add.
  - rewrite handleInterrupted_does, Hi in *.
    cells. split; [|reflexivity].
    intros n Hn. now apply in_map.
Qed.

Lemma Qmax_zero (t : Q) : (0 <= t)%Q -> (Qmax 0 t == t)%Q.
Proof. intro H. now apply Q.max_r. Qed.

(** C2, as the code has it.  An interruption that is handled stops every
    buffer of the active set, leaves the set empty and sets the playback
    clock to 0, however many buffers were pending.  The clock is not set
    to the device time; the next fragment is then started at the device
    time its own handler reads, since that time is not negative. *)
Theorem interruption_clears (m : LiveServerMessage) (now : Q) (s : State) :
  isInterrupted m = true ->
  outcomeOf (onmessage m now s) = Returned ->
  let r := onmessage m now s in
  (forall n, In n (sources (outputPlayback s)) ->
             In (bufferSourceStop n) (effectsOf r))
  /\ sources (outputPlayback (stateOf r)) = []
  /\ clock (stateOf r) = 0%Q
  /\ forall ctx m' now' b,
       output (audioContextRefs s) = Some ctx ->
       fragmentOf ctx m' = Some b ->
       isInterrupted m' = false ->
       (0 <= now')%Q ->
       exists start,
         scheduled (effectsOf (onmessage m' now' (stateOf r)))
         = [(start, duration b)]
         /\ (start == now')%Q.
Proof.
  intros Hi Ho. cbv zeta.
  destruct (onmessage_interrupted m now s Hi Ho) as [Hstop Hp].
  split; [exact Hstop|]. unfold clock. rewrite Hp.
  split; [reflexivity|]. split; [reflexivity|].
  intros ctx m' now' b Hctx Hb Hi' Hnow.
  destruct (onmessage_playback m now s) as [Ha _].
  assert (Hctx' : output (audioContextRefs (stateOf (onmessage m now s)))
                  = Some ctx) by (now rewrite Ha).
  assert (Hplays : plays ctx m' = true).
  { unfold plays. rewrite Hi', Hb.
    destruct (audioPresent m'); reflexivity. }
  destruct (onmessage_plays ctx m' now' _ Hctx' Hplays) as [_ [Hs _]].
  rewrite Hs. unfold fragmentsOf. cbn [flat_map fst snd].
  rewrite Hb. cbn [app expectedStarts].
  exists (Qmax (clock (stateOf (onmessage m now s))) now').
  split; [reflexivity|].
  unfold clock. rewrite Hp. cbn [nextStartTime]. now apply Qmax_zero.
Qed.

Lemma interruption_clears_witness :
  let s := fst (run [Message (audioMessage (silence 240)) 1;
                     Message (audioMessage (silence 120)) 1]
                    activeState) in
  let r := onmessage interruptedMessage 2 s in
  List.length (sources (outputPlayback s)) = 2%nat
  /\ (forall n, In n (sources (outputPlayback s)) ->
                In (bufferSourceStop n) (effectsOf r))
  /\ sources (outputPlayback (stateOf r)) = []
  /\ clock (stateOf r) = 0%Q.
Proof.
  cbv zeta.
  destruct (interruption_clears interruptedMessage 2
              (fst (run [Message (audioMessage (silence 240)) 1;
                         Message (audioMessage (silence 120)) 1]
                        activeState))
              eq_refl eq_refl) as [H1 [H2 [H3 _]]].
  split; [vm_compute; reflexivity|].
  split; [exact H1|]. split; [exact H2 | exact H3].
Defined.

(** C2 as stated fails: after an interruption handled at device time 5
    the playback clock is 0, not 5. *)
Lemma interruption_clock_not_device_time :
  let s := fst (run [Message (audioMessage (silence 240)) 4] activeState) in
  let r := onmessage interruptedMessage 5 s in
  outcomeOf r = Returned
  /\ clock (stateOf r) = 0%Q
  /\ ~ (clock (stateOf r) == 5)%Q.
Proof.
  cbv zeta. split; [vm_compute; reflexivity|].
  split; [vm_compute; reflexivity|].
  vm_compute. discriminate.
Qed.

(** ** The clock and the device time *)

Lemma fragmentOf_duration_pos ctx m b :
  fragmentOf ctx m = Some b -> (0 < duration b)%Q.
Proof.
  unfold fragmentOf, chain.
  destruct (audioPresent m) as [a|]; [|discriminate].
  destruct (decode a) as [bytes|]; [|discriminate].
  apply duration_pos.
Qed.

(** C3, as the code has it.  Before a buffer is scheduled the clock is
    brought up to the device time, so every buffer starts at
    [max(nextStartTime, currentDeviceTime)], which is not before the
    device time; when the handler of a message with audio ends, and the
    message is no interruption, the clock is not behind the device time
    that handler read; and an interruption that is handled sets the
    clock to 0.  Between two messages the device time may pass the
    clock. *)
Theorem clock_not_behind_device (m : LiveServerMessage) (now : Q) (s : State) :
  let r := onmessage m now s in
  (forall n start,
      In (bufferSourceStart n start) (effectsOf r) ->
      start = Qmax (clock s) now /\ (now <= start)%Q)
  /\ (audioPresent m <> None -> output (audioContextRefs s) <> None ->
      isInterrupted m = false -> (now <= clock (stateOf r))%Q)
  /\ (isInterrupted m = true -> outcomeOf r = Returned ->
      clock (stateOf r) = 0%Q).
Proof.
  cbv zeta. split; [|split].
  - destruct (onmessage_playback m now s) as [_ [He _]]. rewrite He.
    unfold andThen. rewrite handleAudioOutput_does.
    intros n start Hin.
    assert (Hstops : forall l, ~ In (bufferSourceStart n start)
                                    (map bufferSourceStop l)).
    { intros l H. apply in_map_iff in H. destruct H as [? [H _]].
      discriminate. }
    destruct (audioPresent m) as [a|].
    + destruct (output (audioContextRefs s)) as [ctx|]; [|destruct Hin].
      destruct (fragmentOf ctx m) as [b|]; [|destruct Hin].
      cbv beta iota zeta in Hin. rewrite handleInterrupted_does in Hin.
      assert (Hhere : start = Qmax (clock s) now).
      { destruct (isInterrupted m); cbn [effectsOf fst snd app] in Hin;
          (destruct Hin as [H | [H | H]];
           [ discriminate
           | injection H as _ Hs; now symmetry
           | first [now apply Hstops in H | destruct H] ]). }
      split; [exact Hhere|]. rewrite Hhere. apply Q.le_max_r.
    + rewrite handleInterrupted_does in Hin.
      destruct (isInterrupted m); cbn [effectsOf fst snd app] in Hin;
        [now apply Hstops in Hin | destruct Hin].
  - intros Ha Hc Hi.
    destruct (onmessage_playback m now s) as [_ [_ [_ Hp]]].
    unfold clock at 1. rewrite Hp.
    unfold andThen. rewrite handleAudioOutput_does.
    destruct (audioPresent m) as [a|]; [|congruence].
    destruct (output (audioContextRefs s)) as [ctx|]; [|congruence].
    destruct (fragmentOf ctx m) as [b|] eqn:Eb.
    + cbv beta iota zeta. rewrite handleInterrupted_does, Hi.
      destruct s as [act st err hist p stream refs [t srcs] tr ai al].
      cells. apply fragmentOf_duration_pos in Eb.
      pose proof (Q.le_max_r t now) as Hmax.
      apply Qle_trans with (Qmax t now); [exact Hmax|].
      rewrite <- (Qplus_0_r (Qmax t now)) at 1.
      apply Qplus_le_r. now apply Qlt_le_weak.
    + destruct s as [act st err hist p stream refs [t srcs] tr ai al].
      cells. apply Q.le_max_r.
  - intros Hi Ho.
    destruct (onmessage_interrupted m now s Hi Ho) as [_ Hp].
    unfold clock. now rewrite Hp.
Qed.

(** C3 as stated fails: in an active session, after an interruption
    handled at device time 5, the clock is behind the device time and is
    not that time. *)
Lemma clock_behind_device_after_interruption :
  let s := fst (run [Message (audioMessage (silence 240)) 4] activeState) in
  let s' := stateOf (onmessage interruptedMessage 5 s) in
  isSessionActive s' = true
  /\ ~ (5 <= clock s')%Q
  /\ ~ (clock s' == 5)%Q.
Proof.
  cbv zeta. split; [vm_compute; reflexivity|]. split; intro H.
  - apply Qle_bool_iff in H. vm_compute in H. discriminate.
  - apply Qeq_bool_iff in H. vm_compute in H. discriminate.
Qed.

Lemma clock_not_behind_device_witness :
  let m := audioMessage (silence 240) in
  let r := onmessage m 7 activeState in
  scheduled (effectsOf r) = [(Qmax 0 7, duration
                                {| numberOfChannels := 1; length := 240;
                                   sampleRate := 24000;
                                   channels := [repeat (0 / 32768)%Q 240] |})]
  /\ (7 <= clock (stateOf r))%Q.
Proof.
  cbv zeta.
  destruct (clock_not_behind_device (audioMessage (silence 240)) 7 activeState)
    as [_ [H _]].
  split; [vm_compute; reflexivity|].
  apply H; [vm_compute; discriminate | vm_compute; discriminate | reflexivity].
Defined.

(** ** Encoding and decoding samples *)

Lemma in_range_int16 samples :
  Forall inInt16 (map (fun x => ToInt16 (x * 32768)%Q) samples).
Proof.
  induction samples as [|x l IH]; constructor; [apply ToInt16_range | exact IH].
Qed.

Lemma stored_is_truncation samples :
  (forall x, In x samples -> (-1 <= x)%Q /\ (x < 1)%Q) ->
  map (fun x => ToInt16 (x * 32768)%Q) samples
  = map (fun x => Qtrunc (x * 32768)%Q) samples.
Proof.
  intro Hr. apply map_ext_in. intros x Hx.
  destruct (Hr x Hx) as [Hlo Hhi]. now apply ToInt16_scaled.
Qed.

(** C6, as the code has it.  For samples of the half-open range, at
    least -1 and below 1, the encoder stores each sample, multiplied by
    32768 and truncated, as a signed 16-bit integer, writes the integers
    low byte first, encodes the bytes in base64 (decoding gives them
    back) and tags them "audio/pcm;rate=16000"; the decoder reads signed
    16-bit little-endian integers and divides each by 32768; so a
    non-empty array of such samples that is encoded and then decoded
    comes back as the truncated products over 32768, each within 1/32768
    of its sample.  A sample equal to 1 is outside this: its product is
    not stored, the store wraps it to -32768. *)
Theorem pcm_round_trip (samples : list Q) (ctx : AudioContext) :
  samples <> [] ->
  (forall x, In x samples -> (-1 <= x)%Q /\ (x < 1)%Q) ->
  let int16s := map (fun x => Qtrunc (x * 32768)%Q) samples in
  exists d bytes b,
    createBlob samples
    = Some {| data := Some d; mimeType := Some (str "audio/pcm;rate=16000") |}
    /\ decode d = Some bytes
    /\ bytes = Uint8Array_of_Int16Array int16s
    /\ Int16Array_of_bytes bytes = Some int16s
    /\ Forall inInt16 int16s
    /\ (forall data' l, Int16Array_of_bytes data' = Some l -> l <> [] ->
          option_map channels (decodeAudioData data' ctx 24000 1)
          = Some [map (fun v => (inject_Z v / 32768)%Q) l])
    /\ decodeAudioData bytes ctx 24000 1 = Some b
    /\ channels b = [map (fun v => (inject_Z v / 32768)%Q) int16s]
    /\ (forall x, In x samples ->
          (Qabs (inject_Z (Qtrunc (x * 32768)) / 32768 - x) < 1 # 32768)%Q)
    /\ (forall x, (x == 1)%Q -> ToInt16 (x * 32768)%Q = -32768).
Proof.
  intros Hne Hr. cbv zeta.
  pose proof (stored_is_truncation samples Hr) as Hst.
  set (int16s := map (fun x => Qtrunc (x * 32768)%Q) samples) in *.
  destruct (createBlob_returns samples) as [d [Hc Hd]].
  rewrite Hst in Hd.
  assert (Hrange : Forall inInt16 int16s)
    by (rewrite <- Hst; apply in_range_int16).
  assert (Hi : Int16Array_of_bytes (Uint8Array_of_Int16Array int16s)
               = Some int16s)
    by (now apply Int16Array_of_bytes_of_Int16Array).
  assert (Hne' : int16s <> [])
    by (subst int16s; destruct samples; [congruence | discriminate]).
  exists d, (Uint8Array_of_Int16Array int16s). eexists.
  split; [exact Hc|]. split; [exact Hd|]. split; [reflexivity|].
  split; [exact Hi|]. split; [exact Hrange|].
  split.
  { intros data' l Hl Hl'. rewrite (decodeAudioData_mono _ ctx l Hl Hl').
    reflexivity. }
  split; [exact (decodeAudioData_mono _ ctx int16s Hi Hne')|].
  split; [reflexivity|].
  split; [|exact ToInt16_at_one].
  intros x Hx. destruct (Hr x Hx) as [Hlo Hhi].
  rewrite <- (ToInt16_scaled x Hlo Hhi).
  now apply quantisation_error.
Qed.

(** The sample 0.5 comes back as 0.5. *)
Lemma pcm_round_trip_witness :
  exists d bytes b,
    createBlob [1 # 2]%Q
    = Some {| data := Some d; mimeType := Some (str "audio/pcm;rate=16000") |}
    /\ decode d = Some bytes
    /\ Int16Array_of_bytes bytes = Some [16384]
    /\ decodeAudioData bytes {| ctxSampleRate := 24000 |} 24000 1 = Some b
    /\ channels b = [[(inject_Z 16384 / 32768)%Q]]
    /\ (Qabs (inject_Z 16384 / 32768 - (1 # 2)) < 1 # 32768)%Q.
Proof.
  destruct (pcm_round_trip [1 # 2]%Q {| ctxSampleRate := 24000 |})
    as [d [bytes [b [Hc [Hd [_ [Hi [_ [_ [Hb [Hch [Hq _]]]]]]]]]]]].
  - discriminate.
  - intros x [<- | []]. split; [vm_compute; discriminate | reflexivity].
  - exists d, bytes, b.
    split; [exact Hc|]. split; [exact Hd|]. split; [exact Hi|].
    split; [exact Hb|]. split; [exact Hch|].
    apply (Hq (1 # 2)%Q). now left.
Defined.

(** C6 as stated fails at the upper end of its range: the sample 1 is in
    [-1, 1], its product with 32768 is 32768, yet the integer stored and
    sent is -32768, and decoding gives -1, which is 2 away from the
    sample. *)
Lemma pcm_round_trip_fails_at_one :
  ((-1 <= 1)%Q /\ (1 <= 1)%Q)
  /\ Qtrunc (1 * 32768)%Q = 32768
  /\ exists d bytes b,
       createBlob [1%Q]
       = Some {| data := Some d;
                 mimeType := Some (str "audio/pcm;rate=16000") |}
       /\ decode d = Some bytes
       /\ Int16Array_of_bytes bytes = Some [-32768]
       /\ decodeAudioData bytes {| ctxSampleRate := 24000 |} 24000 1 = Some b
       /\ channels b = [[(inject_Z (-32768) / 32768)%Q]]
       /\ ~ (Qabs (inject_Z (-32768) / 32768 - 1) <= 1 # 32768)%Q.
Proof.
  split; [split; vm_compute; discriminate|].
  split; [reflexivity|].
  destruct (createBlob_returns [1%Q]) as [d [Hc Hd]].
  exists d. do 2 eexists.
  split; [exact Hc|]. split; [exact Hd|].
  split; [vm_compute; reflexivity|].
  split; [vm_compute; reflexivity|].
  split; [reflexivity|].
  intro H. apply Qle_bool_iff in H. vm_compute in H. discriminate.
Qed.

Lemma nth_map_middle {A B} (f : A -> B) pre x post d :
  nth (List.length pre) (map f (pre ++ x :: post)) d = f x.
Proof.
  rewrite map_app. cbn [map].
  rewrite <- (length_map f pre). apply nth_middle.
Qed.

(** C9. A sample equal to 1 is stored as -32768: its product with 32768
    is 32768, one above the largest 16-bit integer 32767, and the store
    into the [Int16Array] wraps it around instead of clamping it; that
    is the value at the sample's place in the encoded data. *)
Theorem boundary_sample_wraps (pre post : list Q) (x : Q) :
  (x == 1)%Q ->
  Qtrunc (x * 32768)%Q = 32768
  /\ ToInt16 (x * 32768)%Q = -32768
  /\ exists d bytes int16s,
       createBlob (pre ++ x :: post)
       = Some {| data := Some d;
                 mimeType := Some (str "audio/pcm;rate=16000") |}
       /\ decode d = Some bytes
       /\ Int16Array_of_bytes bytes = Some int16s
       /\ nth (List.length pre) int16s 0 = -32768.
Proof.
  intro Hx. split; [|split].
  - unfold Qtrunc. destruct x as [n d]. unfold Qeq in Hx.
    cbn [Qnum Qden Qmult] in *. rewrite Pos.mul_1_r.
    replace n with (Z.pos d) by lia.
    rewrite Z.mul_comm, Z.quot_mul by lia. reflexivity.
  - now apply ToInt16_at_one.
  - destruct (createBlob_returns (pre ++ x :: post)) as [d [Hc Hd]].
    exists d. do 2 eexists. split; [exact Hc|]. split; [exact Hd|].
    split; [apply Int16Array_of_bytes_of_Int16Array, in_range_int16|].
    rewrite (nth_map_middle (fun x => ToInt16 (x * 32768)%Q)).
    now apply ToInt16_at_one.
Qed.

Lemma boundary_sample_wraps_witness :
  ToInt16 (1 * 32768)%Q = -32768
  /\ exists d bytes int16s,
       createBlob [1 # 2; 1; -1]%Q
       = Some {| data := Some d;
                 mimeType := Some (str "audio/pcm;rate=16000") |}
       /\ decode d = Some bytes
       /\ Int16Array_of_bytes bytes = Some int16s
       /\ nth 1 int16s 0 = -32768.
Proof.
  destruct (boundary_sample_wraps [1 # 2]%Q [-1]%Q 1%Q) as [_ [H1 H2]].
  - reflexivity.
  - split; [exact H1 | exact H2].
Defined.

(** * Further properties of the audio helpers *)

Module Base64Shape.
Import Base64 Base64Facts.

Lemma btoa_bytes l : Forall byte l -> btoa l = Some (encode_bytes l).
Proof.
  intro H. unfold btoa.
  replace (forallb _ l) with true; [reflexivity|].
  symmetry. apply forallb_forall. intros x Hx.
  rewrite Forall_forall in H. specialize (H x Hx). unfold byte in H.
  apply andb_true_intro. split; apply Z.leb_le; lia.
Qed.

Lemma encode_bytes_length_exact l :
  List.length (encode_bytes l) = (4 * ((List.length l + 2) / 3))%nat.
Proof.
  induction l as [| a | a b | a b c l IH] using list_ind3.
  - reflexivity.
  - reflexivity.
  - reflexivity.
  - rewrite encode_bytes_group. cbn [List.length]. rewrite IH.
    replace (S (S (S (List.length l))) + 2)%nat
      with (List.length l + 2 + 1 * 3)%nat by lia.
    rewrite Nat.div_add by lia. lia.
Qed.

Lemma isBase64Char_char_of v : sextet v -> isBase64Char (char_of v) = true.
Proof.
  intro Hv. unfold isBase64Char. now rewrite value_of_char_of.
Qed.

Lemma isBase64Char_chars vs :
  Forall sextet vs -> forallb isBase64Char (map char_of vs) = true.
Proof.
  induction 1 as [|v vs Hv _ IH]; cbn [map forallb]; [reflexivity|].
  now rewrite isBase64Char_char_of, IH.
Qed.

Lemma encode_bytes_chars l :
  Forall byte l -> forallb isBase64Char (encode_bytes l) = true.
Proof.
  intro H. pose proof (sextets_range l H) as Hr. revert H Hr.
  induction l as [| a | a b | a b c l IH] using list_ind3; intros H Hr.
  - reflexivity.
  - change (encode_bytes [a]) with (map char_of (sextets [a]) ++ [pad; pad]).
    rewrite forallb_app, isBase64Char_chars by assumption. reflexivity.
  - change (encode_bytes [a; b]) with (map char_of (sextets [a; b]) ++ [pad]).
    rewrite forallb_app, isBase64Char_chars by assumption. reflexivity.
  - rewrite sextets_group in Hr. rewrite encode_bytes_group.
    inversion_clear Hr as [|? ? H1 Hr1]. inversion_clear Hr1 as [|? ? H2 Hr2].
    inversion_clear Hr2 as [|? ? H3 Hr3]. inversion_clear Hr3 as [|? ? H4 Hr4].
    inversion_clear H as [|? ? _ H']. inversion_clear H' as [|? ? _ H''].
    inversion_clear H'' as [|? ? _ Hl].
    cbn [forallb]. rewrite !isBase64Char_char_of by assumption.
    cbn [andb]. now apply IH.
Qed.

End Base64Shape.

(** X1. [decode] undoes [encode]: on the contents of any [Uint8Array],
    [encode] returns a string and [decode] of that string returns the
    same bytes; so two arrays with the same encoding are the same
    array. *)
Theorem encode_decode_round_trip (bytes : list Z) :
  Forall Base64.byte bytes ->
  (exists s, encode bytes = Some s /\ decode s = Some bytes)
  /\ forall bytes', Forall Base64.byte bytes' ->
                    encode bytes' = encode bytes -> bytes' = bytes.
Proof.
  intro H. split; [now apply decode_encode|].
  intros bytes' H' He.
  destruct (decode_encode bytes H) as [s [Hs Hd]].
  destruct (decode_encode bytes' H') as [s' [Hs' Hd']].
  rewrite He, Hs in Hs'. injection Hs' as <-. congruence.
Qed.

Lemma encode_decode_round_trip_witness :
  exists s, encode [0; 255; 16; 128] = Some s
            /\ decode s = Some [0; 255; 16; 128].
Proof.
  apply (encode_decode_round_trip [0; 255; 16; 128]).
  repeat constructor; unfold Base64.byte; lia.
Defined.

(** X2. On the contents of a [Uint8Array] of [n] bytes, [encode] writes
    [4 * ceil(n / 3)] characters, each one a character of the base64
    alphabet or the pad. *)
Theorem encode_shape (bytes : list Z) :
  Forall Base64.byte bytes ->
  exists s, encode bytes = Some s
            /\ List.length s = (4 * ((List.length bytes + 2) / 3))%nat
            /\ forallb isBase64Char s = true.
Proof.
  intro H. exists (Base64.encode_bytes bytes). unfold encode.
  assert (Hid : map fromCharCode bytes = bytes).
  { induction H as [|b l Hb _ IH]; cbn [map]; [reflexivity|].
    rewrite IH. f_equal. unfold fromCharCode, Base64.byte in *.
    apply Z.mod_small. lia. }
  rewrite Hid. split; [now apply Base64Shape.btoa_bytes|].
  split; [apply Base64Shape.encode_bytes_length_exact|].
  now apply Base64Shape.encode_bytes_chars.
Qed.

Lemma encode_shape_witness :
  exists s, encode [1; 2; 3; 4] = Some s
            /\ List.length s = 8%nat
            /\ forallb isBase64Char s = true.
Proof.
  apply (encode_shape [1; 2; 3; 4]).
  repeat constructor; unfold Base64.byte; lia.
Defined.

Lemma list_ind2 {A} (P : list A -> Prop) :
  P [] -> (forall a, P [a]) -> (forall a b l, P l -> P (a :: b :: l)) ->
  forall l, P l.
Proof.
  intros H0 H1 H2.
  assert (H : forall l, P l /\ forall a, P (a :: l)).
  { induction l as [|x l [IH0 IH1]]; split; auto. }
  intro l. apply H.
Qed.

(** The view as 16-bit integers exists exactly for an even number of
    bytes, and has half as many elements. *)
Lemma Int16Array_of_bytes_even data :
  match Int16Array_of_bytes data with
  | Some l =>
      Nat.even (List.length data) = true
      /\ List.length data = (2 * List.length l)%nat
  | None => Nat.even (List.length data) = false
  end.
Proof.
  induction data as [| a | lo hi data IH] using list_ind2.
  - split; reflexivity.
  - reflexivity.
  - cbn [Int16Array_of_bytes].
    destruct (Int16Array_of_bytes data) as [l|]; cbn [option_map].
    + destruct IH as [He Hl]. split; [exact He|].
      cbn [List.length]. lia.
    + exact IH.
Qed.

Lemma Int16Array_of_bytes_range data l :
  Forall Base64.byte data -> Int16Array_of_bytes data = Some l ->
  Forall inInt16 l.
Proof.
  revert l. induction data as [| a | lo hi data IH] using list_ind2;
    intros l H Hl.
  - injection Hl as <-. constructor.
  - discriminate.
  - cbn [Int16Array_of_bytes] in Hl.
    destruct (Int16Array_of_bytes data) as [l'|]; [|discriminate].
    cbn [option_map] in Hl.
    replace l with (signed16 (lo + 256 * hi) :: l') by congruence.
    inversion_clear H as [|? ? Hlo H']. inversion_clear H' as [|? ? Hhi Hd].
    constructor; [|now apply IH].
    apply signed16_range. unfold Base64.byte in *.
    lia.
Qed.

(** The bytes of the view are the bytes it was made from. *)
Lemma Uint8Array_of_Int16Array_of_bytes data l :
  Forall Base64.byte data -> Int16Array_of_bytes data = Some l ->
  Uint8Array_of_Int16Array l = data.
Proof.
  revert l. induction data as [| a | lo hi data IH] using list_ind2;
    intros l H Hl.
  - injection Hl as <-. reflexivity.
  - discriminate.
  - cbn [Int16Array_of_bytes] in Hl.
    destruct (Int16Array_of_bytes data) as [l'|]; [|discriminate].
    cbn [option_map] in Hl.
    replace l with (signed16 (lo + 256 * hi) :: l') by congruence.
    inversion_clear H as [|? ? Hlo H']. inversion_clear H' as [|? ? Hhi Hd].
    unfold Uint8Array_of_Int16Array in *. cbn [flat_map app].
    rewrite (IH l' Hd eq_refl).
    assert (Hu : signed16 (lo + 256 * hi) mod 65536 = lo + 256 * hi).
    { unfold signed16, Base64.byte in *.
      destruct (Z.leb_spec 32768 (lo + 256 * hi));
        Z.div_mod_to_equations; lia. }
    rewrite Hu. unfold Base64.byte in *.
    f_equal; [|f_equal]; Z.div_mod_to_equations; lia.
Qed.

(** X3. On one channel at 24 kHz [decodeAudioData] returns exactly for a
    non-empty, even number of bytes: the empty array and an odd number
    of bytes make it throw.  The buffer it returns has one channel, one
    frame for every two bytes, and lasts the number of bytes over 48000
    seconds. *)
Theorem decodeAudioData_returns (data : list Z) (ctx : AudioContext) :
  match decodeAudioData data ctx 24000 1 with
  | Some b =>
      data <> []
      /\ Nat.even (List.length data) = true
      /\ numberOfChannels b = 1%nat
      /\ sampleRate b = 24000
      /\ length b = (List.length data / 2)%nat
      /\ (duration b == inject_Z (Z.of_nat (List.length data)) / 48000)%Q
  | None => data = [] \/ Nat.even (List.length data) = false
  end.
Proof.
  pose proof (Int16Array_of_bytes_even data) as He.
  destruct (Int16Array_of_bytes data) as [l|] eqn:El.
  - destruct He as [He Hl].
    destruct l as [|v l].
    + destruct data; [|discriminate Hl].
      cbn. now left.
    + rewrite (decodeAudioData_mono data ctx (v :: l) El) by discriminate.
      split; [intros ->; discriminate Hl|].
      split; [exact He|]. split; [reflexivity|]. split; [reflexivity|].
      cbn [length]. rewrite Hl.
      split.
      * rewrite Nat.mul_comm, Nat.div_mul by lia. reflexivity.
      * unfold duration. cbn [length sampleRate].
        unfold Qeq, Qdiv, Qmult, Qinv, inject_Z. cbn [Qnum Qden].
        lia.
  - unfold decodeAudioData. rewrite El. now right.
Qed.

Lemma sample_in_unit_range v :
  inInt16 v -> (-1 <= inject_Z v / 32768)%Q /\ (inject_Z v / 32768 < 1)%Q.
Proof.
  unfold inInt16, Qle, Qlt, Qdiv, Qmult, Qinv, inject_Z. cbn [Qnum Qden].
  lia.
Qed.

(** X4. Every sample of a buffer that [decodeAudioData] returns is at
    least -1 and below 1. *)
Theorem decoded_samples_in_range
    (data : list Z) (ctx : AudioContext) (rate : Z) (numChannels : nat)
    (b : AudioBuffer) :
  Forall Base64.byte data ->
  decodeAudioData data ctx rate numChannels = Some b ->
  forall channelData x,
    In channelData (channels b) -> In x channelData ->
    (-1 <= x)%Q /\ (x < 1)%Q.
Proof.
  intros Hd Hb channelData x Hc Hx. unfold decodeAudioData in Hb.
  destruct (Int16Array_of_bytes data) as [l|] eqn:El; [|discriminate].
  destruct (_ && _); [|discriminate]. injection Hb as <-.
  cbn [channels] in Hc.
  apply in_map_iff in Hc. destruct Hc as [c [<- _]].
  apply in_map_iff in Hx. destruct Hx as [i [<- _]].
  apply sample_in_unit_range.
  pose proof (Int16Array_of_bytes_range data l Hd El) as Hr.
  destruct (nth_in_or_default (i * numChannels + c) l 0) as [Hin | ->].
  - rewrite Forall_forall in Hr. now apply Hr.
  - unfold inInt16. lia.
Qed.

Lemma decoded_samples_in_range_witness :
  exists b,
    decodeAudioData [0; 128; 255; 127] {| ctxSampleRate := 24000 |} 24000 1
    = Some b
    /\ forall channelData x,
         In channelData (channels b) -> In x channelData ->
         (-1 <= x)%Q /\ (x < 1)%Q.
Proof.
  eexists. split; [reflexivity|].
  apply (decoded_samples_in_range [0; 128; 255; 127]
           {| ctxSampleRate := 24000 |} 24000 1).
  - repeat constructor; unfold Base64.byte; lia.
  - reflexivity.
Defined.

(** X5. [decodeAudioData] de-interleaves: the buffer has [numChannels]
    channels of [frameCount] samples, [frameCount] being the number of
    16-bit integers over the number of channels, and sample [i] of
    channel [c] is the integer at place [i * numChannels + c] of the
    data, divided by 32768. *)
Theorem decodeAudioData_deinterleaves
    (data : list Z) (ctx : AudioContext) (rate : Z) (numChannels : nat)
    (b : AudioBuffer) (dataInt16 : list Z) :
  Int16Array_of_bytes data = Some dataInt16 ->
  decodeAudioData data ctx rate numChannels = Some b ->
  length b = (List.length dataInt16 / numChannels)%nat
  /\ List.length (channels b) = numChannels
  /\ forall c, (c < numChannels)%nat ->
       List.length (nth c (channels b) []) = length b
       /\ forall i, (i < length b)%nat ->
            (i * numChannels + c < List.length dataInt16)%nat
            /\ nth i (nth c (channels b) []) 0%Q
               = (inject_Z (nth (i * numChannels + c) dataInt16 0%Z)
                  / 32768)%Q.
Proof.
  intros El Hb. unfold decodeAudioData in Hb. rewrite El in Hb.
  destruct (_ && _) eqn:E; [|discriminate]. injection Hb as <-.
  cbn [length channels].
  split; [reflexivity|]. split; [now rewrite length_map, length_seq|].
  intros c Hc.
  set (n := (List.length dataInt16 / numChannels)%nat).
  set (row := fun channel =>
                map (fun i => (inject_Z (nth (i * numChannels + channel)
                                             dataInt16 0%Z) / 32768)%Q)
                    (seq 0 n)).
  assert (Hrow : nth c (map row (seq 0 numChannels)) [] = row c).
  { rewrite (nth_indep _ [] (row 0%nat))
      by (now rewrite length_map, length_seq).
    rewrite map_nth, seq_nth by assumption. reflexivity. }
  change (nth c (map row (seq 0 numChannels)) []) with
    (nth c (map row (seq 0 numChannels)) []).
  rewrite Hrow. unfold row.
  split; [now rewrite length_map, length_seq|].
  intros i Hi. split.
  - assert (Hdiv : (numChannels * n <= List.length dataInt16)%nat)
      by (apply Nat.Div0.mul_div_le).
    nia.
  - set (f := fun i => (inject_Z (nth (i * numChannels + c) dataInt16 0%Z)
                        / 32768)%Q).
    rewrite (nth_indep _ 0%Q (f 0%nat))
      by (now rewrite length_map, length_seq).
    change (nth i (map f (seq 0 n)) (f 0%nat) = f i).
    rewrite map_nth, seq_nth by assumption. reflexivity.
Qed.

(** Two channels: the even places go to channel 0 and the odd places to
    channel 1. *)
Lemma decodeAudioData_deinterleaves_witness :
  exists b,
    decodeAudioData [1; 0; 2; 0; 3; 0; 4; 0] {| ctxSampleRate := 24000 |}
                    24000 2 = Some b
    /\ length b = 2%nat
    /\ nth 1 (nth 0 (channels b) []) 0%Q = (inject_Z 3 / 32768)%Q
    /\ nth 1 (nth 1 (channels b) []) 0%Q = (inject_Z 4 / 32768)%Q.
Proof.
  eexists. split; [reflexivity|].
  destruct (decodeAudioData_deinterleaves
              [1; 0; 2; 0; 3; 0; 4; 0] {| ctxSampleRate := 24000 |} 24000 2
              _ [1; 2; 3; 4] eq_refl eq_refl) as [Hl [_ H]].
  split; [exact Hl|].
  split.
  - destruct (H 0%nat ltac:(lia)) as [_ H0].
    destruct (H0 1%nat ltac:(cbn; lia)) as [_ H1]. exact H1.
  - destruct (H 1%nat ltac:(lia)) as [_ H0].
    destruct (H0 1%nat ltac:(cbn; lia)) as [_ H1]. exact H1.
Defined.

(** A decoded sample, multiplied by 32768, is stored as the integer it
    was decoded from. *)
Lemma ToInt16_of_decoded v :
  inInt16 v -> ToInt16 ((inject_Z v / 32768) * 32768)%Q = v.
Proof.
  intro Hv. unfold ToInt16.
  replace (Qtrunc ((inject_Z v / 32768) * 32768)%Q) with v.
  - now apply signed16_mod.
  - unfold Qtrunc, Qdiv, Qmult, Qinv, inject_Z. cbn [Qnum Qden].
    rewrite Z.mul_1_r.
    change (Z.pos (1 * 32768 * 1)) with 32768.
    now rewrite Z.quot_mul.
Qed.

(** X6. The round trip in the other direction is exact: the samples that
    [decodeAudioData] reads from a non-empty, even number of bytes are
    encoded by [createBlob] to data that [decode] takes back to those
    same bytes. *)
Theorem decode_then_encode_round_trip (bytes : list Z) (ctx : AudioContext) :
  Forall Base64.byte bytes ->
  bytes <> [] ->
  Nat.even (List.length bytes) = true ->
  exists b channelData d,
    decodeAudioData bytes ctx 24000 1 = Some b
    /\ channels b = [channelData]
    /\ createBlob channelData
       = Some {| data := Some d;
                 mimeType := Some (str "audio/pcm;rate=16000") |}
    /\ decode d = Some bytes.
Proof.
  intros Hb Hne He.
  pose proof (Int16Array_of_bytes_even bytes) as Hv.
  destruct (Int16Array_of_bytes bytes) as [l|] eqn:El; [|congruence].
  assert (Hl : l <> []).
  { intros ->. destruct Hv as [_ Hv]. destruct bytes; [congruence|].
    discriminate Hv. }
  destruct (createBlob_returns (map (fun v => (inject_Z v / 32768)%Q) l))
    as [d [Hc Hd]].
  do 2 eexists. exists d.
  split; [exact (decodeAudioData_mono bytes ctx l El Hl)|].
  split; [reflexivity|]. split; [exact Hc|].
  rewrite Hd. f_equal. rewrite map_map.
  pose proof (Int16Array_of_bytes_range bytes l Hb El) as Hr.
  replace (map (fun x => ToInt16 (inject_Z x / 32768 * 32768)%Q) l) with l.
  - now apply Uint8Array_of_Int16Array_of_bytes.
  - clear -Hr. induction Hr as [|v l Hv _ IH]; cbn [map]; [reflexivity|].
    now rewrite ToInt16_of_decoded, <- IH.
Qed.

Lemma decode_then_encode_round_trip_witness :
  exists b channelData d,
    decodeAudioData [0; 128; 255; 127; 1; 0]
                    {| ctxSampleRate := 24000 |} 24000 1 = Some b
    /\ channels b = [channelData]
    /\ createBlob channelData
       = Some {| data := Some d;
                 mimeType := Some (str "audio/pcm;rate=16000") |}
    /\ decode d = Some [0; 128; 255; 127; 1; 0].
Proof.
  apply (decode_then_encode_round_trip [0; 128; 255; 127; 1; 0]).
  - repeat constructor; unfold Base64.byte; lia.
  - discriminate.
  - reflexivity.
Defined.

Lemma Qtrunc_opp_scaled (x : Q) :
  Qtrunc (- x * 32768)%Q = - Qtrunc (x * 32768)%Q.
Proof.
  unfold Qtrunc. destruct x as [n d]. cbn [Qnum Qden Qmult Qopp].
  rewrite Z.mul_opp_l. apply Z.quot_opp_l. discriminate.
Qed.

(** X7. Inside the open range the encoder is symmetric about zero: the
    integer stored for [-x] is the opposite of the integer stored for
    [x], the store truncating toward zero; so negating every sample of
    an array negates every 16-bit integer of the encoded data. *)
Theorem createBlob_symmetric (samples : list Q) :
  (forall x, In x samples -> (-1 < x)%Q /\ (x < 1)%Q) ->
  exists d,
    createBlob (map Qopp samples)
    = Some {| data := Some d; mimeType := Some (str "audio/pcm;rate=16000") |}
    /\ decode d
       = Some (Uint8Array_of_Int16Array
                 (map (fun x => - ToInt16 (x * 32768)%Q) samples)).
Proof.
  intro Hr.
  destruct (createBlob_returns (map Qopp samples)) as [d [Hc Hd]].
  exists d. split; [exact Hc|]. rewrite Hd. do 2 f_equal.
  rewrite map_map. apply map_ext_in. intros x Hx.
  destruct (Hr x Hx) as [Hlo Hhi].
  rewrite !ToInt16_scaled.
  - apply Qtrunc_opp_scaled.
  - now apply Qlt_le_weak.
  - exact Hhi.
  - apply Qlt_le_weak. apply Qopp_lt_compat in Hhi. exact Hhi.
  - apply Qopp_lt_compat in Hlo. exact Hlo.
Qed.

Lemma createBlob_symmetric_witness :
  exists d,
    createBlob [-(1 # 3); 1 # 2]%Q
    = Some {| data := Some d; mimeType := Some (str "audio/pcm;rate=16000") |}
    /\ decode d
       = Some (Uint8Array_of_Int16Array
                 [- ToInt16 ((1 # 3) * 32768)%Q;
                  - ToInt16 (-(1 # 2) * 32768)%Q]).
Proof.
  apply (createBlob_symmetric [1 # 3; -(1 # 2)]%Q).
  intros x [<- | [<- | []]]; split; reflexivity.
Defined.

(** * Further properties of the session *)

(** The audio and interruption parts of [onmessage], case by case. *)
Lemma playback_does m now s :
  (handleAudioOutput m now ;; handleInterrupted m) s
  = match audioPresent m with
    | None =>
        if isInterrupted m
        then (set_nextStartTime 0 (set_sources [] s),
              map bufferSourceStop (sources (outputPlayback s)), Returned)
        else (s, [], Returned)
    | Some _ =>
        match output (audioContextRefs s) with
        | None => (s, [], Threw)
        | Some ctx =>
            let start := Qmax (clock s) now in
            match fragmentOf ctx m with
            | None => (set_nextStartTime start s, [], Threw)
            | Some b =>
                let n := {| nodeId := allocated s; buffer := b |} in
                let active := Set_add n (sources (outputPlayback s)) in
                let s1 :=
                  set_sources active
                    (set_nextStartTime (start + duration b)%Q
                       (set_allocated (S (allocated s)) s)) in
                if isInterrupted m
                then (set_nextStartTime 0 (set_sources [] s1),
                      [bufferSourceConnect n; bufferSourceStart n start]
                      ++ map bufferSourceStop active, Returned)
                else (s1, [bufferSourceConnect n; bufferSourceStart n start],
                      Returned)
            end
        end
    end.
Proof.
  unfold andThen. rewrite handleAudioOutput_does.
  destruct s as [act st err hist p stream [ic oc pr so] [t srcs] tr ai al].
  destruct (audioPresent m) as [a|].
  - cbn [audioContextRefs output]. destruct oc as [ctx|]; [|reflexivity].
    destruct (fragmentOf ctx m) as [b|]; [|reflexivity].
    cbv zeta. rewrite handleInterrupted_does.
    destruct (isInterrupted m); [reflexivity|].
    cbn [app]. reflexivity.
  - rewrite handleInterrupted_does.
    destruct (isInterrupted m); reflexivity.
Qed.

(** [onmessage] leaves the cells of the session alone. *)
Lemma onmessage_session_frame m now s :
  let s' := stateOf (onmessage m now s) in
  isSessionActive s' = isSessionActive s
  /\ statusMessage s' = statusMessage s
  /\ error s' = error s
  /\ sessionPromiseRef s' = sessionPromiseRef s
  /\ streamRef s' = streamRef s.
Proof.
  cbv zeta. rewrite onmessage_does, handleTranscription_does, playback_does.
  destruct s as [act st err hist p stream [ic oc pr so] [t srcs] [ci co] ai al].
  destruct (isTurnComplete m); cells;
    (destruct (audioPresent m) as [a|];
     [ destruct oc as [ctx|]; [|repeat split];
       destruct (fragmentOf ctx m) as [b|]; [|repeat split];
       destruct (isInterrupted m); repeat split
     | destruct (isInterrupted m); repeat split ]).
Qed.

(** X8. A message whose audio does not decode makes [onmessage] throw
    after the clock has been raised to [max(clock, deviceTime)]: no
    buffer is started, the active set is as it was, and an interruption
    marker in the same message is not acted on. *)
Theorem undecodable_audio_skips_playback
    (ctx : AudioContext) (m : LiveServerMessage) (now : Q) (s : State) :
  audioPresent m <> None ->
  output (audioContextRefs s) = Some ctx ->
  fragmentOf ctx m = None ->
  let r := onmessage m now s in
  outcomeOf r = Threw
  /\ effectsOf r = []
  /\ sources (outputPlayback (stateOf r)) = sources (outputPlayback s)
  /\ clock (stateOf r) = Qmax (clock s) now.
Proof.
  intros Ha Hc Hf. cbv zeta.
  destruct (onmessage_playback m now s) as [_ [He [Ho Hp]]].
  unfold clock at 1. rewrite He, Ho, Hp, playback_does, Hc, Hf.
  destruct (audioPresent m) as [a|]; [|congruence].
  destruct s as [act st err hist p stream refs [t srcs] tr ai al].
  repeat split.
Qed.

Lemma undecodable_audio_skips_playback_witness :
  let s := fst (run [Message (audioMessage (silence 240)) 1] activeState) in
  let r := onmessage (audioMessage (str "AA")) 2 s in
  outcomeOf r = Threw
  /\ effectsOf r = []
  /\ sources (outputPlayback (stateOf r)) = sources (outputPlayback s)
  /\ clock (stateOf r) = Qmax (clock s) 2.
Proof.
  cbv zeta.
  apply (undecodable_audio_skips_playback {| ctxSampleRate := 24000 |}).
  - vm_compute. discriminate.
  - reflexivity.
  - vm_compute. reflexivity.
Defined.

Lemma Set_add_fresh n l :
  (forall x, In x l -> (nodeId x < nodeId n)%nat) -> Set_add n l = l ++ [n].
Proof.
  intro H. unfold Set_add.
  destruct (existsb _ l) eqn:E; [|reflexivity].
  apply existsb_exists in E. destruct E as [x [Hx Hid]].
  apply Nat.eqb_eq in Hid. specialize (H x Hx). lia.
Qed.

(** X9. A message that carries both audio and the interruption marker
    has its buffer scheduled and then stopped by the same handler, after
    every buffer that was active; the active set is empty and the clock
    is 0 afterwards. *)
Theorem audio_with_interruption
    (ctx : AudioContext) (m : LiveServerMessage) (now : Q) (s : State)
    (b : AudioBuffer) :
  freshIds s ->
  output (audioContextRefs s) = Some ctx ->
  fragmentOf ctx m = Some b ->
  isInterrupted m = true ->
  let r := onmessage m now s in
  let n := {| nodeId := allocated s; buffer := b |} in
  outcomeOf r = Returned
  /\ effectsOf r
     = [bufferSourceConnect n; bufferSourceStart n (Qmax (clock s) now)]
       ++ map bufferSourceStop (sources (outputPlayback s))
       ++ [bufferSourceStop n]
  /\ sources (outputPlayback (stateOf r)) = []
  /\ clock (stateOf r) = 0%Q.
Proof.
  intros [Hfresh _] Hc Hf Hi. cbv zeta.
  destruct (onmessage_playback m now s) as [_ [He [Ho Hp]]].
  unfold clock at 2. rewrite He, Ho, Hp, playback_does, Hc, Hf, Hi.
  assert (Ha : audioPresent m <> None).
  { unfold fragmentOf in Hf. destruct (audioPresent m); [discriminate|].
    discriminate Hf. }
  destruct (audioPresent m) as [a|]; [|congruence].
  destruct s as [act st err hist p stream refs [t srcs] tr ai al].
  cbv zeta. cbn [effectsOf outcomeOf stateOf fst snd].
  cbn [outputPlayback sources allocated] in *.
  rewrite Set_add_fresh by (intros x Hx; cbn [nodeId]; now apply Hfresh).
  rewrite map_app. repeat split.
Qed.

Lemma audio_with_interruption_witness :
  let s := fst (run [Message (audioMessage (silence 240)) 1] activeState) in
  let r := onmessage (interruptingAudioMessage (silence 120)) 1 s in
  List.length (sources (outputPlayback s)) = 1%nat
  /\ List.length (effectsOf r) = 4%nat
  /\ sources (outputPlayback (stateOf r)) = []
  /\ clock (stateOf r) = 0%Q.
Proof.
  cbv zeta.
  destruct (audio_with_interruption {| ctxSampleRate := 24000 |}
              (interruptingAudioMessage (silence 120)) 1
              (fst (run [Message (audioMessage (silence 240)) 1] activeState))
              {| numberOfChannels := 1; length := 120; sampleRate := 24000;
                 channels := [repeat (0 / 32768)%Q 120] |})
    as [_ [He [Hs Hk]]].
  - split.
    + vm_compute. intros x [<- | []]. cbn. lia.
    + vm_compute. repeat constructor. intros [].
  - reflexivity.
  - vm_compute. reflexivity.
  - reflexivity.
  - split; [vm_compute; reflexivity|].
    split; [rewrite He; vm_compute; reflexivity|].
    split; [exact Hs | exact Hk].
Defined.

(** X10. Once the session has been stopped, a message that still arrives
    touches no device: [onmessage] emits no effect and the active set
    stays empty, whatever the message; it throws exactly when the
    message carries audio, the output context being gone; and the
    session stays inactive. *)
Theorem message_after_stop (m : LiveServerMessage) (now : Q) (s : State) :
  let r := onmessage m now (stateOf (handleStop s)) in
  effectsOf r = []
  /\ sources (outputPlayback (stateOf r)) = []
  /\ (outcomeOf r = Threw <-> audioPresent m <> None)
  /\ isSessionActive (stateOf r) = false.
Proof.
  cbv zeta. rewrite handleStop_stopped. cbn [stateOf fst].
  destruct (onmessage_playback m now (stopped s)) as [_ [He [Ho Hp]]].
  destruct (onmessage_session_frame m now (stopped s)) as [Ha _].
  rewrite He, Ho, Hp, Ha, playback_does.
  destruct (audioPresent m) as [a|].
  - cbn. repeat split; congruence.
  - destruct (isInterrupted m); cbn; repeat split; try congruence;
      intro H; discriminate.
Qed.

(** X11. When the connection opens after the session has been stopped,
    [onopen] throws on the missing input context: it creates and
    connects no node and holds none afterwards, but it has already
    written "Connected. Start speaking..." to the status line of the
    inactive session. *)
Theorem open_after_stop (s : State) :
  let r := onopen (stateOf (handleStop s)) in
  outcomeOf r = Threw
  /\ effectsOf r = []
  /\ stateOf r
     = setStatusMessage (str "Connected. Start speaking...") (stopped s).
Proof.
  cbv zeta. rewrite handleStop_stopped. repeat split.
Qed.

Lemma Uint8Array_of_Int16Array_length l :
  List.length (Uint8Array_of_Int16Array l) = (2 * List.length l)%nat.
Proof.
  unfold Uint8Array_of_Int16Array.
  induction l as [|v l IH]; cbn [flat_map app List.length]; lia.
Qed.

(** X12. [onaudioprocess] changes no cell.  While a session promise is
    held it sends exactly one message, whose data decodes to two bytes
    for each sample of the frame and whose type is
    "audio/pcm;rate=16000"; without one, after a stop, it sends
    nothing. *)
Theorem onaudioprocess_sends (inputData : list Q) (s : State) :
  let r := onaudioprocess inputData s in
  outcomeOf r = Returned
  /\ stateOf r = s
  /\ match sessionPromiseRef s with
     | None => effectsOf r = []
     | Some _ =>
         exists d bytes,
           effectsOf r
           = [sendRealtimeInput
                {| data := Some d;
                   mimeType := Some (str "audio/pcm;rate=16000") |}]
           /\ decode d = Some bytes
           /\ List.length bytes = (2 * List.length inputData)%nat
     end.
Proof.
  cbv zeta. unfold onaudioprocess.
  destruct (createBlob_returns inputData) as [d [Hc Hd]]. rewrite Hc.
  unfold reading.
  destruct (sessionPromiseRef s) as [p|]; repeat split.
  exists d. eexists. split; [reflexivity|]. split; [exact Hd|].
  now rewrite Uint8Array_of_Int16Array_length, length_map.
Qed.

(** ** Invariants of the session *)

(** What every handler keeps holds after every run. *)
Lemma run_invariant (P : State -> Prop) :
  (forall e s, P s -> P (stateOf (handle e s))) ->
  forall es s, P s -> P (fst (run es s)).
Proof.
  intros Hstep es. induction es as [|e es IH]; intros s Hs; [exact Hs|].
  cbn [run fst]. apply IH. now apply Hstep.
Qed.

Ltac open_state s :=
  destruct s as [act st err hist p stream [ic oc pr so] [t srcs] [ci co] ai al].

Lemma onaudioprocess_state inputData s :
  stateOf (onaudioprocess inputData s) = s.
Proof.
  unfold onaudioprocess.
  destruct (createBlob inputData); [|reflexivity].
  unfold reading. destruct (sessionPromiseRef s); reflexivity.
Qed.

Lemma handleStart_denied_state s :
  stateOf (handleStart None s)
  = setStatusMessage (str "Microphone access denied.")
      (setError (Some (str
         "Microphone access denied. Please allow microphone access in your browser settings."))
         (setTranscriptionHistory [] s)).
Proof. open_state s. reflexivity. Qed.

Lemma handleStart_granted_state ms s :
  stateOf (handleStart (Some ms) s)
  = {| isSessionActive := true;
       statusMessage := str "Connecting to Gemini...";
       error := None;
       transcriptionHistory := [];
       sessionPromiseRef := Some {| promiseId := allocated s |};
       streamRef := Some ms;
       audioContextRefs :=
         {| input := Some {| ctxSampleRate := 16000 |};
            output := Some {| ctxSampleRate := 24000 |};
            processor := processor (audioContextRefs s);
            source := source (audioContextRefs s) |};
       outputPlayback :=
         {| nextStartTime := 0; sources := sources (outputPlayback s) |};
       transcriptionRefs := transcriptionRefs s;
       aiRef := true;
       allocated := S (allocated s) |}.
Proof. open_state s. destruct ai; reflexivity. Qed.

Lemma onopen_state s :
  stateOf (onopen s)
  = match input (audioContextRefs s), streamRef s with
    | Some _, Some stream =>
        set_processor (Some {| bufferSize := 4096 |})
          (set_source (Some {| mediaStream := stream |})
             (setStatusMessage (str "Connected. Start speaking...") s))
    | _, _ => setStatusMessage (str "Connected. Start speaking...") s
    end.
Proof.
  open_state s. destruct ic as [c|], stream as [m|]; reflexivity.
Qed.

Lemma onended_state n s :
  stateOf (onended n s)
  = set_sources (Set_delete n (sources (outputPlayback s))) s.
Proof. reflexivity. Qed.

(** The playback cells after a message, from those before. *)
Lemma onmessage_outputPlayback m now s :
  outputPlayback (stateOf (onmessage m now s))
  = match audioPresent m with
    | None =>
        if isInterrupted m
        then {| nextStartTime := 0; sources := [] |}
        else outputPlayback s
    | Some _ =>
        match output (audioContextRefs s) with
        | None => outputPlayback s
        | Some ctx =>
            let start := Qmax (clock s) now in
            match fragmentOf ctx m with
            | None =>
                {| nextStartTime := start;
                   sources := sources (outputPlayback s) |}
            | Some b =>
                if isInterrupted m
                then {| nextStartTime := 0; sources := [] |}
                else {| nextStartTime := (start + duration b)%Q;
                        sources :=
                          Set_add {| nodeId := allocated s; buffer := b |}
                                  (sources (outputPlayback s)) |}
            end
        end
    end.
Proof.
  destruct (onmessage_playback m now s) as [_ [_ [_ Hp]]].
  rewrite Hp, playback_does.
  destruct s as [act st err hist p stream refs [t srcs] tr ai al].
  destruct (audioPresent m) as [a|].
  - cbn [audioContextRefs]. destruct (output refs) as [ctx|]; [|reflexivity].
    destruct (fragmentOf ctx m) as [b|]; [|reflexivity].
    cbv zeta. destruct (isInterrupted m); reflexivity.
  - destruct (isInterrupted m); reflexivity.
Qed.

Lemma coherent_stopped s : coherent (stopped s).
Proof. unfold coherent. cbn. repeat split. Qed.

Lemma coherent_step e s : coherent s -> coherent (stateOf (handle e s)).
Proof.
  intro H. destruct e as [granted | | | inputData | m now | n | msg |];
    cbn [handle].
  - destruct granted as [stream|].
    + rewrite handleStart_granted_state. unfold coherent in *.
      cbn [isSessionActive sessionPromiseRef streamRef audioContextRefs
           input output processor source isSome].
      repeat split. apply H.
    + rewrite handleStart_denied_state. open_state s. exact H.
  - rewrite handleStop_stopped. apply coherent_stopped.
  - rewrite onopen_state. open_state s. unfold coherent in *.
    cbn [isSessionActive sessionPromiseRef streamRef audioContextRefs
         input output processor source isSome outputPlayback sources] in *.
    destruct ic as [c|], stream as [ms|]; cells; try exact H.
    destruct H as [H _]. destruct act; [|destruct H as [_ [H _]]; discriminate].
    split; [exact H | reflexivity].
  - rewrite onaudioprocess_state. exact H.
  - destruct (onmessage_session_frame m now s) as [Ha [_ [_ [Hp Hs]]]].
    destruct (onmessage_playback m now s) as [Hc _].
    pose proof (onmessage_outputPlayback m now s) as Ho.
    unfold coherent in *. rewrite Ha, Hp, Hs, Hc, Ho.
    destruct H as [H Hpair]. split; [|exact Hpair].
    destruct (isSessionActive s); [exact H|].
    destruct H as [H1 [H2 [H3 H4]]]. repeat split; try assumption.
    rewrite H3. cbn [output].
    destruct (audioPresent m); [exact H4|].
    destruct (isInterrupted m); [reflexivity | exact H4].
  - rewrite onended_state. open_state s. unfold coherent in *.
    cbn [isSessionActive sessionPromiseRef streamRef audioContextRefs
         input output processor source isSome outputPlayback sources
         set_sources set_outputPlayback nextStartTime] in *.
    destruct H as [H Hpair]. split; [|exact Hpair].
    destruct act; [exact H|].
    destruct H as [H1 [H2 [H3 H4]]]. rewrite H4. repeat split; assumption.
  - rewrite onerror_stopped. apply coherent_stopped.
  - unfold onclose. rewrite handleStop_stopped. apply coherent_stopped.
Qed.

(** X13. In every state a component reaches from its mount, whatever
    the events and their order, the handles of the session are held
    together: while the session is active the connection promise, the
    microphone stream and both audio contexts are held; while it is not,
    none of them is held, no capture node is held and no buffer is in
    the active set; and the processor node is held exactly when the
    source node is. *)
Theorem session_coherent (es : list Event) :
  coherent (fst (run es initialState)).
Proof.
  apply run_invariant; [exact coherent_step|].
  unfold coherent. cbn. repeat split.
Qed.

(** Every entry a flush appends has a character that is not white
    space. *)
Lemma flushed_nonBlank fullInput fullOutput :
  Forall (fun e => nonBlank (entryText e) = true)
         (flushed fullInput fullOutput).
Proof.
  unfold flushed.
  destruct (nonBlank fullInput) eqn:Ei, (nonBlank fullOutput) eqn:Eo;
    cbn [app]; repeat constructor; assumption.
Qed.

Lemma flushed_length fullInput fullOutput :
  (List.length (flushed fullInput fullOutput) <= 2)%nat.
Proof.
  unfold flushed.
  destruct (nonBlank fullInput), (nonBlank fullOutput); cbn; lia.
Qed.

(** What an event does to the transcript history. *)
Lemma handle_history e s :
  transcriptionHistory (stateOf (handle e s))
  = match e with
    | Start _ => []
    | Message m _ =>
        transcriptionHistory s
        ++ (if isTurnComplete m
            then flushed
                   (currentInput (transcriptionRefs s) ++ inputFragment m)
                   (currentOutput (transcriptionRefs s) ++ outputFragment m)
            else [])
    | _ => transcriptionHistory s
    end.
Proof.
  destruct e as [granted | | | inputData | m now | n | msg |];
    cbn [handle].
  - destruct granted as [ms|].
    + now rewrite handleStart_granted_state.
    + now rewrite handleStart_denied_state.
  - now rewrite handleStop_stopped.
  - rewrite onopen_state. open_state s.
    destruct ic, stream; reflexivity.
  - now rewrite onaudioprocess_state.
  - apply onmessage_transcript.
  - reflexivity.
  - now rewrite onerror_stopped.
  - unfold onclose. now rewrite handleStop_stopped.
Qed.

(** X14. No entry of the transcript history is blank: in every state a
    component reaches from its mount, the text of each entry has a
    character that is not white space. *)
Theorem history_entries_not_blank (es : list Event) :
  Forall (fun e => nonBlank (entryText e) = true)
         (transcriptionHistory (fst (run es initialState))).
Proof.
  apply (run_invariant
           (fun s => Forall (fun e => nonBlank (entryText e) = true)
                            (transcriptionHistory s))).
  - intros e s H. rewrite handle_history.
    destruct e; try exact H; [constructor|].
    apply Forall_app. split; [exact H|].
    destruct (isTurnComplete message); [apply flushed_nonBlank | constructor].
  - constructor.
Qed.

(** X15. The transcript history is append-only within a session: only
    [handleStart] empties it; a message with the turn-complete marker
    appends at most two entries to it; every other event, a stop or a
    connection error included, leaves it as it is. *)
Theorem history_append_only (e : Event) (s : State) :
  let h := transcriptionHistory s in
  let h' := transcriptionHistory (stateOf (handle e s)) in
  match e with
  | Start _ => h' = []
  | Message m _ =>
      exists added,
        h' = h ++ added
        /\ (List.length added <= 2)%nat
        /\ (isTurnComplete m = false -> added = [])
  | _ => h' = h
  end.
Proof.
  cbv zeta. rewrite handle_history. destruct e; try reflexivity.
  destruct (isTurnComplete message).
  - eexists. split; [reflexivity|]. split; [apply flushed_length|].
    discriminate.
  - exists []. split; [reflexivity|]. split; [cbn; lia | reflexivity].
Qed.

Lemma history_append_only_witness :
  let s := fst (run [Message (inputTranscriptionMessage (str "Hi")) 0;
                     Message turnCompleteMessage 0] activeState) in
  transcriptionHistory s = [{| speaker := user; entryText := str "Hi" |}]
  /\ transcriptionHistory
       (stateOf (handle (Message (inputTranscriptionMessage (str "again")) 1)
                        s))
     = transcriptionHistory s
  /\ transcriptionHistory (stateOf (handle Stop s)) = transcriptionHistory s.
Proof.
  cbv zeta. split; [vm_compute; reflexivity|]. split.
  - destruct (history_append_only
                (Message (inputTranscriptionMessage (str "again")) 1)
                (fst (run [Message (inputTranscriptionMessage (str "Hi")) 0;
                           Message turnCompleteMessage 0] activeState)))
      as [added [Hh [_ Hn]]].
    rewrite Hh, (Hn eq_refl). apply app_nil_r.
  - exact (history_append_only Stop _).
Defined.

(** What an event does to the playback clock. *)
Lemma handle_clock e s :
  clock (stateOf (handle e s))
  = match e with
    | Start (Some _) => 0%Q
    | Message m now =>
        nextStartTime (outputPlayback (stateOf (onmessage m now s)))
    | _ => clock s
    end.
Proof.
  unfold clock.
  destruct e as [granted | | | inputData | m now | n | msg |];
    cbn [handle].
  - destruct granted as [ms|].
    + now rewrite handleStart_granted_state.
    + now rewrite handleStart_denied_state.
  - now rewrite handleStop_stopped.
  - rewrite onopen_state. open_state s.
    destruct ic, stream; reflexivity.
  - now rewrite onaudioprocess_state.
  - reflexivity.
  - reflexivity.
  - now rewrite onerror_stopped.
  - unfold onclose. now rewrite handleStop_stopped.
Qed.

Lemma fragmentOf_duration_nonneg ctx m b :
  fragmentOf ctx m = Some b -> (0 <= duration b)%Q.
Proof.
  intro H. apply Qlt_le_weak. exact (fragmentOf_duration_pos ctx m b H).
Qed.

Lemma Qle_plus_nonneg (a d : Q) : (0 <= d)%Q -> (a <= a + d)%Q.
Proof.
  intro H. rewrite <- (Qplus_0_r a) at 1. now apply Qplus_le_r.
Qed.

(** X16. The playback clock is never negative: in every state a
    component reaches from its mount it is at least 0, whatever device
    times the handlers read. *)
Theorem clock_never_negative (es : list Event) :
  (0 <= clock (fst (run es initialState)))%Q.
Proof.
  apply (run_invariant (fun s => (0 <= clock s)%Q)).
  - intros e s H. rewrite handle_clock.
    destruct e as [[ms|] | | | inputData | m now | n | msg |];
      try exact H; [apply Qle_refl|].
    rewrite onmessage_outputPlayback. fold (clock s).
    destruct (audioPresent m) as [a|].
    + destruct (output (audioContextRefs s)) as [ctx|]; [|exact H].
      cbv zeta. destruct (fragmentOf ctx m) as [b|] eqn:Eb.
      * destruct (isInterrupted m); [apply Qle_refl|].
        cbn [nextStartTime].
        apply Qle_trans with (Qmax (clock s) now).
        -- apply Qle_trans with (clock s); [exact H | apply Q.le_max_l].
        -- apply Qle_plus_nonneg. exact (fragmentOf_duration_nonneg _ _ _ Eb).
      * cbn [nextStartTime].
        apply Qle_trans with (clock s); [exact H | apply Q.le_max_l].
    + destruct (isInterrupted m); [apply Qle_refl | exact H].
  - apply Qle_refl.
Qed.

(** X17. Only a granted [handleStart] and an interruption lower the
    playback clock: after any other event the clock is at least what it
    was, and a stop or a connection error leaves it as it is. *)
Theorem clock_monotone (e : Event) (s : State) :
  match e with
  | Start (Some _) => False
  | Message m _ => isInterrupted m = false
  | _ => True
  end ->
  (clock s <= clock (stateOf (handle e s)))%Q
  /\ match e with
     | Message _ _ => True
     | _ => clock (stateOf (handle e s)) = clock s
     end.
Proof.
  intro He. rewrite handle_clock.
  destruct e as [[ms|] | | | inputData | m now | n | msg |];
    try (split; [apply Qle_refl | reflexivity]); [destruct He|].
  split; [|exact I].
  rewrite onmessage_outputPlayback, He. fold (clock s).
  destruct (audioPresent m) as [a|]; [|apply Qle_refl].
  destruct (output (audioContextRefs s)) as [ctx|]; [|apply Qle_refl].
  cbv zeta. destruct (fragmentOf ctx m) as [b|] eqn:Eb; cbn [nextStartTime].
  - apply Qle_trans with (Qmax (clock s) now); [apply Q.le_max_l|].
    apply Qle_plus_nonneg. exact (fragmentOf_duration_nonneg _ _ _ Eb).
  - apply Q.le_max_l.
Qed.

Lemma clock_monotone_witness :
  let s := fst (run [Message (audioMessage (silence 240)) 3] activeState) in
  (clock s <= clock (stateOf (handle (Message (audioMessage (silence 120)) 1)
                                     s)))%Q
  /\ clock (stateOf (handle Stop s)) = clock s.
Proof.
  cbv zeta. split.
  - apply (clock_monotone (Message (audioMessage (silence 120)) 1)).
    reflexivity.
  - apply (clock_monotone Stop). exact I.
Defined.

(** ** Playback without gaps *)

Lemma fragmentsOf_one ctx m now :
  fragmentsOf ctx [(m, now)]
  = match fragmentOf ctx m with
    | Some b => [(now, duration b)]
    | None => []
    end.
Proof.
  unfold fragmentsOf. cbn [flat_map fst snd]. apply app_nil_r.
Qed.

(** X18. While the fragments arrive ahead of the playback, that is,
    each at a device time that is not past the clock as it stands when
    that fragment is handled, the buffers are played back to back: the
    first starts at the clock, each other starts exactly where the one
    before it ends, and the clock ends up advanced by the sum of the
    durations. *)
Theorem gapless_playback
    (ctx : AudioContext) (s : State) (l : list (LiveServerMessage * Q)) :
  output (audioContextRefs s) = Some ctx ->
  forallb (fun mt => plays ctx (fst mt)) l = true ->
  (forall before m now after,
      l = before ++ (m, now) :: after ->
      fragmentOf ctx m <> None ->
      (now <= clock (fst (run (messages before) s)))%Q) ->
  let r := run (messages l) s in
  backToBack (scheduled (snd r))
  /\ match scheduled (snd r) with
     | (start, _) :: _ => (start == clock s)%Q
     | [] => True
     end
  /\ (clock (fst r) == clock s + totalDuration (fragmentsOf ctx l))%Q.
Proof.
  intros Hctx Hl. cbv zeta. revert s Hctx.
  induction l as [|[m now] l IH]; intros s Hctx Hahead.
  - cbn. split; [exact I|]. split; [exact I|].
    unfold totalDuration. cbn. now rewrite Qplus_0_r.
  - cbn [forallb fst] in Hl. apply andb_prop in Hl. destruct Hl as [Hm Hl].
    destruct (onmessage_plays ctx m now s Hctx Hm) as [Hc [Hs Hk]].
    assert (Hahead' :
              forall before m' now' after,
                l = before ++ (m', now') :: after ->
                fragmentOf ctx m' <> None ->
                (now' <= clock (fst (run (messages before)
                                         (stateOf (onmessage m now s)))))%Q).
    { intros before m' now' after El Hf.
      apply (Hahead ((m, now) :: before) m' now' after); [|exact Hf].
      cbn [app]. now rewrite El. }
    destruct (IH Hl _ Hc Hahead') as [Hb [Hh Hk']].
    change (messages ((m, now) :: l)) with (Message m now :: messages l).
    cbn [run fst snd handle].
    rewrite scheduled_app, (fragmentsOf_cons ctx (m, now) l).
    rewrite fragmentsOf_one in Hs, Hk |- *.
    assert (Hfirst : fragmentOf ctx m <> None -> (now <= clock s)%Q)
      by (exact (Hahead [] m now l eq_refl)).
    destruct (fragmentOf ctx m) as [b|];
      cbn [expectedStarts expectedClock] in Hs, Hk; rewrite Hs; cbn [app].
    + assert (Hmax : (Qmax (clock s) now == clock s)%Q)
        by (apply Q.max_l; apply Hfirst; discriminate).
      cbn [backToBack]. split; [|split].
      * split; [|exact Hb].
        destruct (scheduled (snd (run (messages l) _)))
          as [|[w2 d2] rest]; [exact I|].
        rewrite Hh, Hk. reflexivity.
      * exact Hmax.
      * rewrite Hk', Hk. unfold totalDuration. cbn [map fold_right snd].
        rewrite Hmax. now rewrite Qplus_assoc.
    + rewrite Hk in Hh, Hk'. split; [exact Hb|]. split; assumption.
Qed.

(** The second fragment arrives at a device time past the clock the run
    began with, but not past the clock as the first fragment left it. *)
Lemma gapless_playback_witness :
  let l := [(audioMessage (silence 240), 0%Q);
            (audioMessage (silence 120), (1 # 200)%Q)] in
  backToBack (scheduled (snd (run (messages l) activeState)))
  /\ (clock (fst (run (messages l) activeState)) == 3 # 200)%Q.
Proof.
  cbv zeta.
  destruct (gapless_playback {| ctxSampleRate := 24000 |} activeState
              [(audioMessage (silence 240), 0%Q);
               (audioMessage (silence 120), (1 # 200)%Q)])
    as [Hb [_ Hk]].
  - reflexivity.
  - vm_compute. reflexivity.
  - intros before m now after El _.
    pose proof (f_equal (@List.length _) El) as Hlen.
    rewrite length_app in Hlen. cbn [List.length] in Hlen.
    replace now with (snd (m, now)) by reflexivity.
    destruct before as [|x [|y before]]; cbn [List.length] in Hlen;
      try lia.
    + pose proof (f_equal (hd (m, now)) El) as Hh. cbn [hd app] in Hh.
      rewrite <- Hh. cbn [snd].
      apply Qle_bool_iff. vm_compute. reflexivity.
    + pose proof (f_equal (hd (m, now)) El) as Hx. cbn [hd app] in Hx.
      pose proof (f_equal (fun l => hd (m, now) (tl l)) El) as Hh.
      cbn [hd tl app] in Hh.
      rewrite <- Hh, <- Hx. cbn [snd].
      apply Qle_bool_iff. vm_compute. reflexivity.
  - split; [exact Hb|]. rewrite Hk. vm_compute. reflexivity.
Defined.

(** ** Errors and restarts *)

(** X19. When the transport reports an error and then closes, the
    close releases nothing again and changes no cell: the error cell
    still holds the error text and the session stays stopped. *)
Theorem error_then_close (message : jsstring) (s : State) :
  let r1 := onerror message s in
  let r2 := onclose (stateOf r1) in
  outcomeOf r2 = Returned
  /\ effectsOf r2 = []
  /\ stateOf r2 = stateOf r1
  /\ error (stateOf r2) = Some (str "Connection error: " ++ message)
  /\ isSessionActive (stateOf r2) = false.
Proof.
  cbv zeta. unfold onclose. rewrite onerror_stopped.
  cbn [stateOf fst]. rewrite handleStop_stopped. repeat split.
Qed.

Lemma not_in_stops t l :
  ~ In (trackStop t) (map bufferSourceStop l).
Proof.
  intro H. apply in_map_iff in H. destruct H as [? [H _]]. discriminate.
Qed.

(** X20. [handleStart] releases nothing and overwrites what the cells
    hold.  A start followed by a stop stops every track of the stream it
    was granted; but when a second start is granted before any stop, the
    tracks of the first stream that are not tracks of the second are
    never stopped, neither by the second start nor by the stop that
    follows. *)
Theorem second_start_leaks_first_stream
    (first second : MediaStream) (s : State) (track : nat) :
  In track (getTracks first) ->
  ~ In track (getTracks second) ->
  In (trackStop track) (snd (run [Start (Some first); Stop] s))
  /\ ~ In (trackStop track)
          (snd (run [Start (Some first); Start (Some second); Stop] s)).
Proof.
  intros H1 H2. cbn [run handle fst snd]. split.
  - rewrite handleStop_stopped, handleStart_granted_state.
    cbn [effectsOf fst snd]. rewrite app_nil_r.
    apply in_or_app. right.
    unfold releases, held. cbn [sessionPromiseRef streamRef app].
    right. apply in_or_app. left. now apply in_map.
  - rewrite handleStop_stopped, !handleStart_granted_state.
    cbn [effectsOf fst snd]. rewrite app_nil_r.
    unfold releases, held.
    cbn [sessionPromiseRef streamRef audioContextRefs input output
         processor source outputPlayback sources app].
    intro H.
    assert (Hs : forall g st', ~ In (trackStop track)
                                    (snd (fst (handleStart (Some g) st')))).
    { intros g st' Hin. open_state st'. destruct ai;
        cbn in Hin; destruct Hin as [Hin | [Hin | []]]; discriminate. }
    apply in_app_or in H. destruct H as [H | H]; [now apply Hs in H|].
    apply in_app_or in H. destruct H as [H | H]; [now apply Hs in H|].
    destruct H as [H | H]; [discriminate|].
    apply in_app_or in H. destruct H as [H | H].
    + apply in_map_iff in H. destruct H as [track' [Ht' Hin]].
      injection Ht' as ->. contradiction.
    + repeat (apply in_app_or in H; destruct H as [H | H];
              [ destruct (processor _) + destruct (source _) + idtac;
                cbn in H; intuition discriminate |]).
      cbn [In app] in H.
      destruct H as [H | [H | H]]; try discriminate.
      now apply not_in_stops in H.
Qed.

Lemma second_start_leaks_first_stream_witness :
  In (trackStop 7) (snd (run [Start (Some {| getTracks := [7%nat] |}); Stop]
                             initialState))
  /\ ~ In (trackStop 7)
          (snd (run [Start (Some {| getTracks := [7%nat] |});
                     Start (Some {| getTracks := [8%nat] |}); Stop]
                    initialState)).
Proof.
  apply (second_start_leaks_first_stream
           {| getTracks := [7%nat] |} {| getTracks := [8%nat] |}
           initialState 7%nat).
  - now left.
  - intros [H | []]. discriminate.
Defined.

(** ** The active set *)

Lemma onmessage_allocated m now s :
  (allocated s <= allocated (stateOf (onmessage m now s)))%nat
  /\ forall ctx b,
       output (audioContextRefs s) = Some ctx ->
       fragmentOf ctx m = Some b ->
       isInterrupted m = false ->
       allocated (stateOf (onmessage m now s)) = S (allocated s).
Proof.
  rewrite onmessage_does.
  destruct (handleTranscription_frame m s) as [Ha [_ Hn]].
  rewrite <- Ha, <- Hn. clear Ha Hn.
  generalize (stateOf (handleTranscription m s)). clear s. intro s.
  rewrite playback_does.
  destruct s as [act st err hist p stream refs [t srcs] tr ai al].
  cbn [allocated audioContextRefs].
  destruct (audioPresent m) as [a|] eqn:Ea.
  - destruct (output refs) as [ctx|].
    + destruct (fragmentOf ctx m) as [b|] eqn:Eb.
      * cbv zeta. destruct (isInterrupted m).
        -- cbn. split; [lia|]. intros ? ? _ _ H. discriminate.
        -- cbn. split; [lia|]. reflexivity.
      * cbn. split; [lia|]. intros ctx' b' Hc Hf _.
        injection Hc as <-. congruence.
    + cbn. split; [lia|]. intros ? ? H. discriminate.
  - assert (Hf : forall ctx, fragmentOf ctx m = None)
      by (intro; unfold fragmentOf; now rewrite Ea).
    destruct (isInterrupted m); cbn; (split; [lia|]);
      intros ctx b _ Hb; rewrite Hf in Hb; discriminate.
Qed.

Lemma NoDup_map_filter {A B} (f : A -> B) (g : A -> bool) l :
  NoDup (map f l) -> NoDup (map f (filter g l)).
Proof.
  induction l as [|x l IH]; intro H; [constructor|].
  cbn [map] in H. inversion_clear H as [|? ? Hx Hl].
  cbn [filter]. destruct (g x); [|now apply IH].
  cbn [map]. constructor; [|now apply IH].
  intro Hin. apply Hx. apply in_map_iff in Hin.
  destruct Hin as [y [Hy Hin]]. apply filter_In in Hin.
  apply in_map_iff. exists y. now split.
Qed.

Lemma NoDup_snoc {A} (l : list A) a :
  NoDup l -> ~ In a l -> NoDup (l ++ [a]).
Proof.
  induction 1 as [|x l Hx _ IH]; intro Ha; cbn [app].
  - constructor; [intros []|constructor].
  - constructor.
    + intro Hin. apply in_app_or in Hin. destruct Hin as [Hin | [<- | []]].
      * contradiction.
      * apply Ha. now left.
    + apply IH. intro Hin. apply Ha. now right.
Qed.

Lemma freshIds_step e s : freshIds s -> freshIds (stateOf (handle e s)).
Proof.
  intros [Hlt Hnd].
  assert (Hkeep : forall s', sources (outputPlayback s')
                             = sources (outputPlayback s) ->
                             (allocated s <= allocated s')%nat ->
                             freshIds s').
  { intros s' Hs Ha. unfold freshIds. rewrite Hs. split; [|exact Hnd].
    intros x Hx. specialize (Hlt x Hx). lia. }
  assert (Hempty : forall s', sources (outputPlayback s') = [] -> freshIds s').
  { intros s' Hs. unfold freshIds. rewrite Hs. split; [intros x []|constructor]. }
  destruct e as [granted | | | inputData | m now | n | msg |];
    cbn [handle].
  - destruct granted as [ms|].
    + apply Hkeep; rewrite handleStart_granted_state; cbn; [reflexivity | lia].
    + apply Hkeep; rewrite handleStart_denied_state; cbn; [reflexivity | lia].
  - apply Hempty. now rewrite handleStop_stopped.
  - apply Hkeep; rewrite onopen_state; open_state s;
      destruct ic, stream; cbn; reflexivity || lia.
  - rewrite onaudioprocess_state. now split.
  - destruct (onmessage_allocated m now s) as [Hle Hnew].
    pose proof (onmessage_outputPlayback m now s) as Ho.
    destruct (audioPresent m) as [a|].
    + destruct (output (audioContextRefs s)) as [ctx|];
        [|apply Hkeep; [now rewrite Ho | exact Hle]].
      cbv zeta in Ho. destruct (fragmentOf ctx m) as [b|] eqn:Eb;
        [|apply Hkeep; [now rewrite Ho | exact Hle]].
      destruct (isInterrupted m) eqn:Ei;
        [apply Hempty; now rewrite Ho|].
      specialize (Hnew ctx b eq_refl Eb eq_refl).
      unfold freshIds. rewrite Ho, Hnew. cbn [sources].
      rewrite Set_add_fresh by (intros x Hx; cbn [nodeId]; now apply Hlt).
      split.
      * intros x Hx. apply in_app_or in Hx. destruct Hx as [Hx | [<- | []]].
        -- specialize (Hlt x Hx). lia.
        -- cbn [nodeId]. lia.
      * rewrite map_app. cbn [map nodeId].
        apply NoDup_snoc; [exact Hnd|]. intro Hin. apply in_map_iff in Hin.
        destruct Hin as [x [Hid Hx]]. specialize (Hlt x Hx). lia.
    + destruct (isInterrupted m);
        [apply Hempty; now rewrite Ho | apply Hkeep; [now rewrite Ho | exact Hle]].
  - rewrite onended_state. unfold freshIds.
    open_state s. cbn [outputPlayback sources allocated set_sources
                       set_outputPlayback nextStartTime] in *.
    split.
    + intros x Hx. apply filter_In in Hx. now apply Hlt.
    + now apply NoDup_map_filter.
  - apply Hempty. now rewrite onerror_stopped.
  - apply Hempty. unfold onclose. now rewrite handleStop_stopped.
Qed.

Lemma freshIds_reachable es : freshIds (fst (run es initialState)).
Proof.
  apply run_invariant; [exact freshIds_step|].
  split; [intros x [] | constructor].
Qed.

Lemma Set_delete_middle n l1 l2 :
  NoDup (map nodeId (l1 ++ n :: l2)) ->
  Set_delete n (l1 ++ n :: l2) = l1 ++ l2.
Proof.
  intro H. unfold Set_delete. rewrite filter_app. cbn [filter].
  rewrite Nat.eqb_refl. cbn [negb].
  rewrite map_app in H. cbn [map] in H.
  pose proof (NoDup_remove_2 _ _ _ H) as Hn.
  assert (Hall : forall l, (forall x, In x l -> nodeId x <> nodeId n) ->
                           filter (fun m => negb (nodeId m =? nodeId n)%nat) l
                           = l).
  { induction l as [|x l IH]; intro Hl; [reflexivity|].
    cbn [filter].
    rewrite (proj2 (Nat.eqb_neq _ _) (Hl x (or_introl eq_refl))).
    cbn [negb]. f_equal. apply IH. intros y Hy. apply Hl. now right. }
  rewrite !Hall; [reflexivity | |];
    intros x Hx Heq; apply Hn; apply in_or_app;
    [right | left]; apply in_map_iff; exists x; now split.
Qed.

(** X21. In every state a component reaches from its mount, a fragment
    that is played is added to the end of the active set, which grows by
    exactly that buffer; and when a buffer of the set ends, its listener
    removes that buffer and no other, and touches no device. *)
Theorem active_set_bookkeeping (es : list Event) :
  let s := fst (run es initialState) in
  (forall ctx m now b,
      output (audioContextRefs s) = Some ctx ->
      fragmentOf ctx m = Some b ->
      isInterrupted m = false ->
      sources (outputPlayback (stateOf (onmessage m now s)))
      = sources (outputPlayback s)
        ++ [{| nodeId := allocated s; buffer := b |}])
  /\ (forall n before after,
         sources (outputPlayback s) = before ++ n :: after ->
         sources (outputPlayback (stateOf (onended n s))) = before ++ after
         /\ effectsOf (onended n s) = []).
Proof.
  cbv zeta. destruct (freshIds_reachable es) as [Hlt Hnd].
  set (s := fst (run es initialState)) in *. split.
  - intros ctx m now b Hc Hf Hi.
    rewrite onmessage_outputPlayback, Hc, Hf, Hi.
    assert (Ha : audioPresent m <> None).
    { unfold fragmentOf in Hf. destruct (audioPresent m); [discriminate|].
      discriminate Hf. }
    destruct (audioPresent m); [|congruence].
    cbn [sources]. apply Set_add_fresh.
    intros x Hx. cbn [nodeId]. now apply Hlt.
  - intros n before after Hs. split; [|reflexivity].
    rewrite onended_state. cbn [set_sources set_outputPlayback
                                outputPlayback sources].
    rewrite Hs in *. now apply Set_delete_middle.
Qed.

Lemma active_set_bookkeeping_witness :
  let s := fst (run [Start (Some {| getTracks := [0%nat] |}); Open;
                     Message (audioMessage (silence 240)) 0;
                     Message (audioMessage (silence 120)) 0] initialState) in
  List.length (sources (outputPlayback s)) = 2%nat
  /\ List.length
       (sources (outputPlayback
                   (stateOf (onmessage (audioMessage (silence 180)) 0 s))))
     = 3%nat.
Proof.
  cbv zeta.
  destruct (active_set_bookkeeping
              [Start (Some {| getTracks := [0%nat] |}); Open;
               Message (audioMessage (silence 240)) 0;
               Message (audioMessage (silence 120)) 0]) as [Hadd _].
  assert (Hlen : List.length
                   (sources (outputPlayback
                      (fst (run [Start (Some {| getTracks := [0%nat] |}); Open;
                                 Message (audioMessage (silence 240)) 0;
                                 Message (audioMessage (silence 120)) 0]
                                initialState)))) = 2%nat)
    by (vm_compute; reflexivity).
  split; [exact Hlen|].
  rewrite (Hadd {| ctxSampleRate := 24000 |}
                (audioMessage (silence 180)) 0%Q
                {| numberOfChannels := 1; length := 180; sampleRate := 24000;
                   channels := [repeat (0 / 32768)%Q 180] |}).
  - rewrite length_app, Hlen. reflexivity.
  - vm_compute. reflexivity.
  - vm_compute. reflexivity.
  - reflexivity.
Defined.

(** X22. A fragment that arrives after the scheduled audio has played
    out, that is, at a device time past the clock, starts at once: its
    buffer is started at the device time its handler reads, and the
    clock becomes that time plus the buffer's duration. *)
Theorem late_fragment_starts_now
    (ctx : AudioContext) (m : LiveServerMessage) (now : Q) (s : State)
    (b : AudioBuffer) :
  output (audioContextRefs s) = Some ctx ->
  fragmentOf ctx m = Some b ->
  isInterrupted m = false ->
  (clock s <= now)%Q ->
  let r := onmessage m now s in
  exists start,
    scheduled (effectsOf r) = [(start, duration b)]
    /\ (start == now)%Q
    /\ (clock (stateOf r) == now + duration b)%Q.
Proof.
  intros Hc Hf Hi Hlate. cbv zeta.
  assert (Hplays : plays ctx m = true).
  { unfold plays. rewrite Hi, Hf. destruct (audioPresent m); reflexivity. }
  destruct (onmessage_plays ctx m now s Hc Hplays) as [_ [Hs Hk]].
  unfold fragmentsOf in Hs, Hk. cbn [flat_map fst snd] in Hs, Hk.
  rewrite Hf in Hs, Hk. cbn [app expectedStarts expectedClock] in Hs, Hk.
  exists (Qmax (clock s) now). split; [exact Hs|].
  assert (Hmax : (Qmax (clock s) now == now)%Q) by (now apply Q.max_r).
  split; [exact Hmax|]. rewrite Hk. now rewrite Hmax.
Qed.

Lemma late_fragment_starts_now_witness :
  let s := fst (run [Message (audioMessage (silence 240)) 0] activeState) in
  exists start,
    scheduled (effectsOf (onmessage (audioMessage (silence 120)) 5 s))
    = [(start, duration {| numberOfChannels := 1; length := 120;
                           sampleRate := 24000;
                           channels := [repeat (0 / 32768)%Q 120] |})]
    /\ (start == 5)%Q.
Proof.
  cbv zeta.
  destruct (late_fragment_starts_now {| ctxSampleRate := 24000 |}
              (audioMessage (silence 120)) 5
              (fst (run [Message (audioMessage (silence 240)) 0] activeState))
              {| numberOfChannels := 1; length := 120; sampleRate := 24000;
                 channels := [repeat (0 / 32768)%Q 120] |})
    as [start [Hs [He _]]].
  - reflexivity.
  - vm_compute. reflexivity.
  - reflexivity.
  - vm_compute. discriminate.
  - exists start. split; [exact Hs | exact He].
Defined.
